(** * Kucher: the device communicator

    A shallow embedding of [kucher/model/device_model/communicator.py]:
    the send path, the identity matcher, the request/response table of the
    dispatch core and the loop of the IO worker thread, followed by the
    properties of the communicator that were checked against them. *)

From Stdlib Require Import Strings.Byte ZArith Lia.
From stdpp Require Import base option numbers list strings.

Set Default Proof Using "Type".
Open Scope string_scope.
Open Scope list_scope.
Open Scope nat_scope.

(** ** Python values seen by the communicator *)

(** The exceptions that occur in the module, all of them subclasses of
    [Exception] (what [except Exception] catches); [OtherError] stands for any
    further subclass, named.  Signals that derive from [BaseException] only
    (a keyboard interrupt, an interpreter exit) are not part of the model. *)
Inductive exn :=
| TypeError
| ValueError
| KeyError
| CommunicatorException
| ChannelClosedException
| InvalidStateError
| TimeoutError
| OtherError (name : string).

Inductive outcome (A : Type) :=
| Returned (a : A)
| Raised (e : exn).
Arguments Returned {A} a.
Arguments Raised {A} e.

(** Modelled from the spec: [MessageType] and [Message] are declared in
    [kucher/model/device_model/messages.py]; every application-specific
    message carries an identifying type tag (its [type], a member of the
    [MessageType] enumeration, named here by its member name) next to its
    field values. *)
Definition MessageType := string.

Record Message := {
  type : MessageType;
  fields : list (string * Z)
}.

(** Python classes, as far as [isinstance] can tell them apart here: [object],
    the class [popcop.standard.MessageBase] with its descendants (a
    descendant is named by the chain of class names that leads to it from
    the base, so [TStandard []] is the base itself), and classes unrelated to
    both. *)
Inductive pytype :=
| TObject
| TStandard (chain : list string)
| TOther (name : string).

Definition StandardMessageBase : pytype := TStandard [].

(** [issubclass c d]. *)
Definition issubclass (c d : pytype) : bool :=
  match d, c with
  | TObject, _ => true
  | TStandard q, TStandard p => bool_decide (q `prefix_of` p)
  | TOther m, TOther n => bool_decide (n = m)
  | _, _ => false
  end.

(** An instance of a standard message class. *)
Record StandardMessage := {
  std_class : list string;
  std_fields : list (string * Z)
}.

Record ReceivedFrame := {
  frame_type_code : nat;
  payload : list byte
}.

(** The objects that reach the communicator. *)
Inductive pyobj :=
| OMessage (m : Message)
| OMessageType (t : MessageType)
| OStandard (s : StandardMessage)
| OType (c : pytype)
| OFrame (f : ReceivedFrame)
| OBytes (b : list byte)
| ONone
| OInt (z : Z).

(** [type(x)] of a standard message instance. *)
Definition type_of_standard (s : StandardMessage) : pytype := TStandard (std_class s).

(** [isinstance(x, Message)], [isinstance(x, MessageType)],
    [isinstance(x, StandardMessageBase)], [isinstance(x, type)],
    [isinstance(x, ReceivedFrame)]. *)
Definition is_Message (x : pyobj) : bool := match x with OMessage _ => true | _ => false end.
Definition is_MessageType (x : pyobj) : bool := match x with OMessageType _ => true | _ => false end.
Definition is_StandardMessageBase (x : pyobj) : bool := match x with OStandard _ => true | _ => false end.
Definition is_type (x : pyobj) : bool := match x with OType _ => true | _ => false end.
Definition is_ReceivedFrame (x : pyobj) : bool := match x with OFrame _ => true | _ => false end.

(** The wire codec of one protocol version (an external collaborator):
    both directions may fail. *)
Record Codec := {
  encode : Message -> outcome (nat * list byte);
  decode : ReceivedFrame -> outcome Message
}.

(** ** Futures, pending requests and the state of the dispatch core *)

(** An [asyncio.Future]: pending, finished with a result, or cancelled. *)
Inductive Future :=
| FPending
| FFinished (result : pyobj)
| FCancelled.

(** A response predicate supplied by a caller of [request]. *)
Definition predicate_fn := pyobj -> outcome bool.

(** An entry of [_pending_requests]: the closure [super_predicate], given by
    what it captures (the sent [message_or_type] and the caller's
    [predicate]), and the future, given by its address in the heap.  The
    future is created by the same call that creates the entry, so the
    address identifies the entry. *)
Record entry := {
  e_reference : pyobj;
  e_predicate : predicate_fn;
  e_future : nat
}.

Inductive level := DEBUG | INFO | WARNING | ERROR.

(** What the code does to its collaborators and to its own collections, in
    the order in which it does it. *)
Inductive effect :=
| Log (lvl : level) (text : string)
| SendStandard (m : pyobj)
| SendApplicationSpecific (code : nat) (data : list byte)
| SetResult (fut : nat) (v : pyobj)
| PendingAdd (fut : nat)
| PendingRemove (fut : nat)
| PutMessage (m : pyobj)
| ChannelClose.

(** The fields of [Communicator] that belong to the dispatch core, and the
    heap of the futures it created.  [_pending_requests] is a Python set: it
    is listed in the order in which the set would be iterated. *)
Record Communicator := {
  _codec : option Codec;
  _pending_requests : list entry;
  _message_queue : list pyobj;
  heap : list Future
}.

Definition with_pending (p : list entry) (c : Communicator) : Communicator :=
  {| _codec := _codec c; _pending_requests := p;
     _message_queue := _message_queue c; heap := heap c |}.
Definition with_queue (q : list pyobj) (c : Communicator) : Communicator :=
  {| _codec := _codec c; _pending_requests := _pending_requests c;
     _message_queue := q; heap := heap c |}.
Definition with_heap (h : list Future) (c : Communicator) : Communicator :=
  {| _codec := _codec c; _pending_requests := _pending_requests c;
     _message_queue := _message_queue c; heap := h |}.
Definition with_codec (k : option Codec) (c : Communicator) : Communicator :=
  {| _codec := k; _pending_requests := _pending_requests c;
     _message_queue := _message_queue c; heap := heap c |}.

(** ** Computations: state, effects and exceptions *)

Record run (A : Type) := Run {
  effects : list effect;
  final : Communicator;
  out : outcome A
}.
Arguments Run {A} effects final out.
Arguments effects {A} r.
Arguments final {A} r.
Arguments out {A} r.

Definition M (A : Type) := Communicator -> run A.

Definition ret {A} (a : A) : M A := fun c => Run [] c (Returned a).
Definition raise {A} (e : exn) : M A := fun c => Run [] c (Raised e).
Definition emit (f : effect) : M unit := fun c => Run [f] c (Returned tt).
Definition get : M Communicator := fun c => Run [] c (Returned c).
Definition modify (f : Communicator -> Communicator) : M unit :=
  fun c => Run [] (f c) (Returned tt).

Definition bind {A B} (m : M A) (k : A -> M B) : M B :=
  fun c =>
    let r := m c in
    match out r with
    | Returned a =>
        let r' := k a (final r) in
        Run (effects r ++ effects r') (final r') (out r')
    | Raised e => Run (effects r) (final r) (Raised e)
    end.

Notation "x <- m ;; k" := (bind m (fun x => k))
  (at level 100, m at next level, right associativity).
Notation "m ;; k" := (bind m (fun _ => k))
  (at level 100, right associativity).

(** [try: m  except <any Exception> as ex: h ex]. *)
Definition try_except {A} (m : M A) (h : exn -> M A) : M A :=
  fun c =>
    let r := m c in
    match out r with
    | Returned a => r
    | Raised e =>
        let r' := h e (final r) in
        Run (effects r ++ effects r') (final r') (out r')
    end.

(** [try: m  finally: f]: an exception of [f] replaces the outcome of [m]. *)
Definition try_finally {A} (m : M A) (f : M unit) : M A :=
  fun c =>
    let r := m c in
    let r' := f (final r) in
    Run (effects r ++ effects r') (final r')
        match out r' with
        | Returned _ => out r
        | Raised e => Raised e
        end.

Definition logger (lvl : level) (text : string) : M unit := emit (Log lvl text).

(** ** The send path *)

(** The channel's [send_standard] and [send_application_specific] put the
    frame into the channel's own queue and return. *)
Definition send_standard (m : pyobj) : M unit := emit (SendStandard m).
Definition send_application_specific (code : nat) (data : list byte) : M unit :=
  emit (SendApplicationSpecific code data).

Definition lift_outcome {A} (o : outcome A) : M A :=
  match o with
  | Returned a => ret a
  | Raised e => raise e
  end.

(** [Communicator._do_send]: the two branches fall through to the last
    statement of the function, which is not under an [else]. *)
Definition _do_send (message_or_type : pyobj) : M unit :=
  match message_or_type with
  | OMessage m =>
      c <- get ;;
      match _codec c with
      | None => raise CommunicatorException
      | Some codec =>
          fp <- lift_outcome (encode codec m) ;;
          send_application_specific (fst fp) (snd fp)
      end
  | OStandard _ | OType _ => send_standard message_or_type
  | _ => ret tt
  end ;;
  raise TypeError.

(** [Communicator.send]. *)
Definition send (message : pyobj) : M unit := _do_send message.

(** [Communicator.close], as far as the channel is concerned (the join of
    the worker thread leaves no trace in the dispatch core). *)
Definition close : M unit := emit ChannelClose.

(** ** Futures *)

(** [future.done()]: true once the future has a result or is cancelled.  An
    address outside the heap is no future at all and counts as not usable. *)
Definition future_done (h : list Future) (f : nat) : bool :=
  match h !! f with
  | Some FPending => false
  | _ => true
  end.

(** [asyncio.Future()]: a new pending future at the next free address. *)
Definition new_future : M nat :=
  c <- get ;;
  modify (with_heap (heap c ++ [FPending])) ;;
  ret (length (heap c)).

(** [future.set_result(v)]: refused on a future that is done. *)
Definition set_result (f : nat) (v : pyobj) : M unit :=
  c <- get ;;
  if future_done (heap c) f then raise InvalidStateError
  else
    modify (with_heap (<[f := FFinished v]> (heap c))) ;;
    emit (SetResult f v).

(** The call [asyncio.wait_for(future, timeout, self._event_loop)] of
    [request].  [asyncio.wait_for(fut, timeout, *, loop=None)] takes the loop
    by keyword only (and takes no loop at all from Python 3.10 on), so a
    call with three positional arguments is refused when it is made: it
    raises [TypeError]; no coroutine is created, nothing is awaited, and the
    future is not touched. *)
Definition wait_for (future : nat) (timeout : Z) (_event_loop : unit) : M pyobj :=
  raise TypeError.

(** ** Identity matching *)

(** Truth value of what a predicate returned ([None] is false). *)
Definition truthy (v : option bool) : bool :=
  match v with
  | Some true => true
  | _ => false
  end.

(** The first statement of [_match_message] ("eliminate prototypes"): an
    instance given as the reference stands for its class or its type tag. *)
Definition eliminate_prototype (reference : pyobj) : pyobj :=
  match reference with
  | OStandard s => OType (type_of_standard s)
  | OMessage m => OMessageType (type m)
  | _ => reference
  end.

(** [Communicator._match_message]: [None] is the value of a call that falls
    off the end of the function. *)
Definition _match_message (reference candidate : pyobj) : option bool :=
  let reference := eliminate_prototype reference in
  match candidate, reference with
  | OMessage m, OMessageType t => Some (bool_decide (type m = t))
  | OStandard s, OType c => Some (issubclass (type_of_standard s) c)
  | _, _ => None
  end.

(** The closure [super_predicate] of [request], applied to [item]. *)
Definition super_predicate (message_or_type : pyobj) (predicate : predicate_fn)
    (item : pyobj) : M (option bool) :=
  if truthy (_match_message message_or_type item) then
    try_except
      (b <- lift_outcome (predicate item) ;; ret (Some b))
      (fun ex =>
         logger ERROR "Unhandled exception in response predicate for message %r: %r" ;;
         ret None)
  else ret None.

Definition call_entry (e : entry) (item : pyobj) : M (option bool) :=
  super_predicate (e_reference e) (e_predicate e) item.

(** ** The dispatch core: item processing *)

(** [self._message_queue.put_nowait(message)] on an unbounded queue. *)
Definition put_nowait (message : pyobj) : M unit :=
  c <- get ;;
  modify (with_queue (_message_queue c ++ [message])) ;;
  emit (PutMessage message).

(** The loop over [self._pending_requests] of [_process_received_item]; the
    result is [at_least_one_match]. *)
Fixpoint match_pending (message : pyobj) (pending : list entry)
    (at_least_one_match : bool) : M bool :=
  match pending with
  | [] => ret at_least_one_match
  | e :: rest =>
      c <- get ;;
      if future_done (heap c) (e_future e) then
        match_pending message rest at_least_one_match
      else
        r <- call_entry e message ;;
        if truthy r then
          logger DEBUG "Matching response: %r %r" ;;
          set_result (e_future e) message ;;
          match_pending message rest true
        else match_pending message rest at_least_one_match
  end.

(** The first half of [_process_received_item]: the message of the item, or
    [None] where the function returns early. *)
Definition item_message (item : pyobj) : M (option pyobj) :=
  match item with
  | OStandard _ => ret (Some item)
  | OFrame f =>
      c <- get ;;
      match _codec c with
      | None =>
          logger WARNING
            "Cannot decode application-specific frame because the codec is not yet initialized: %r" ;;
          ret None
      | Some codec =>
          try_except
            (m <- lift_outcome (decode codec f) ;; ret (Some (OMessage m)))
            (fun _ => logger WARNING "Could not decode frame: %r" ;; ret None)
      end
  | _ => raise TypeError
  end.

(** [Communicator._process_received_item]. *)
Definition _process_received_item (item : pyobj) : M unit :=
  message <- item_message item ;;
  match message with
  | None => ret tt
  | Some message =>
      c <- get ;;
      at_least_one_match <- match_pending message (_pending_requests c) false ;;
      if at_least_one_match then ret tt else put_nowait message
  end.

(** ** Requests *)

Definition has_entry (f : nat) (pending : list entry) : bool :=
  existsb (fun e => Nat.eqb (e_future e) f) pending.

(** The set without the entry that holds the future at [g]. *)
Definition without (g : nat) (pending : list entry) : list entry :=
  List.filter (fun e' => negb (Nat.eqb (e_future e') g)) pending.

(** [self._pending_requests.add(entry)]. *)
Definition pending_add (e : entry) : M unit :=
  c <- get ;;
  if has_entry (e_future e) (_pending_requests c) then ret tt
  else
    modify (with_pending (_pending_requests c ++ [e])) ;;
    emit (PendingAdd (e_future e)).

(** [self._pending_requests.remove(entry)]: [KeyError] when the entry is not
    in the set. *)
Definition pending_remove (e : entry) : M unit :=
  c <- get ;;
  if has_entry (e_future e) (_pending_requests c) then
    modify (with_pending (without (e_future e) (_pending_requests c))) ;;
    emit (PendingRemove (e_future e))
  else raise KeyError.

(** [Communicator.set_protocol_version], given the codec that
    [Codec(major_minor)] constructs. *)
Definition set_protocol_version (codec : Codec) : M unit :=
  modify (with_codec (Some codec)).

(** The second half of [request], from the default of the predicate to the
    [finally] clause.  The call of [asyncio.wait_for] raises when it is made,
    so the coroutine is not suspended there: the [except] clause, which is
    for [asyncio.TimeoutError], lets the exception pass, and the [finally]
    clause removes the entry. *)
Definition await_response (message_or_type : pyobj) (timeout : Z)
    (predicate : option predicate_fn) : M (option pyobj) :=
  let predicate := default (fun _ => Returned true) predicate in
  future <- new_future ;;
  let entry := {| e_reference := message_or_type; e_predicate := predicate;
                  e_future := future |} in
  try_finally
    (try_except
       (pending_add entry ;;
        v <- wait_for future timeout tt ;;
        ret (Some v))
       (fun ex => match ex with
                  | TimeoutError => ret None
                  | _ => raise ex
                  end))
    (pending_remove entry).

(** [Communicator.request]; of the timeout, a number, the code itself only
    tests the sign. *)
Definition request (message_or_type : pyobj) (timeout : Z)
    (predicate : option predicate_fn) : M (option pyobj) :=
  if (timeout <=? 0)%Z then raise ValueError
  else
    _do_send message_or_type ;;
    await_response message_or_type timeout predicate.

(** What runs on the event loop: an item handed over by the IO worker, a
    [send], a change of protocol version, a call of [request]; and, so that
    what is proved of the runs does not rest on the place where a call of
    [request] gives up, the second half of [request] on its own. *)
Inductive event :=
| EvItem (item : pyobj)
| EvSend (message : pyobj)
| EvSetProtocolVersion (codec : Codec)
| EvRequest (message_or_type : pyobj) (timeout : Z) (predicate : option predicate_fn)
| EvAwaitResponse (message_or_type : pyobj) (timeout : Z)
    (predicate : option predicate_fn).

(** An exception of a callback or of a coroutine stays with its caller. *)
Definition contained {A} (m : M A) : M unit :=
  fun c => let r := m c in Run (effects r) (final r) (Returned tt).

Definition step (ev : event) : M unit :=
  match ev with
  | EvItem item => contained (_process_received_item item)
  | EvSend message => contained (send message)
  | EvSetProtocolVersion codec => set_protocol_version codec
  | EvRequest m t p => contained (request m t p)
  | EvAwaitResponse m t p => contained (await_response m t p)
  end.

Fixpoint run_events (evs : list event) : M unit :=
  match evs with
  | [] => ret tt
  | ev :: rest => step ev ;; run_events rest
  end.

(** ** The IO worker thread *)

Definition IO_WORKER_ERROR_LIMIT : nat := 100.

(** What the thread meets in one turn of its loop: the value of
    [self._ch.is_open] at the loop test, what [self._ch.receive(0.1)] does,
    and what [call_soon_threadsafe] does if the turn gets that far. *)
Record iteration := {
  is_open : bool;
  received : outcome pyobj;
  scheduled : outcome unit
}.

(** The calls handed over to the event loop.  The log string is
    [ret.decode(encoding='utf8', errors='replace')], which is defined on all
    byte strings; it is kept as the bytes it is decoded from. *)
Inductive callback :=
| LogQueuePut (raw : list byte)
| ProcessReceivedItem (item : pyobj).

Inductive worker_effect :=
| WLog (lvl : level) (text : string)
| WCallSoon (cb : callback)
| WClose.

(** The body of the [try] statement. *)
Definition receive_and_route (it : iteration) : list worker_effect * outcome unit :=
  match received it with
  | Raised e => ([], Raised e)
  | Returned (OBytes b) =>
      match scheduled it with
      | Returned _ =>
          ([WLog DEBUG "Received log string: %r"; WCallSoon (LogQueuePut b)], Returned tt)
      | Raised e => ([WLog DEBUG "Received log string: %r"], Raised e)
      end
  | Returned ONone => ([], Returned tt)
  | Returned ret =>
      match scheduled it with
      | Returned _ =>
          ([WLog DEBUG "Received item: %r"; WCallSoon (ProcessReceivedItem ret)], Returned tt)
      | Raised e => ([WLog DEBUG "Received item: %r"], Raised e)
      end
  end.

Inductive exit_cause := NotOpen | ChannelClosed | TooManyErrors.

Inductive control :=
| Continue (error_counter : nat)
| Break (cause : exit_cause).

(** One turn of [while self._ch.is_open: try ... except ... else ...]. *)
Definition turn (it : iteration) (error_counter : nat) : list worker_effect * control :=
  if is_open it then
    match receive_and_route it with
    | (w, Raised ChannelClosedException) =>
        (w ++ [WLog INFO "Stopping the IO worker thread because the channel is closed. Error: %r"],
         Break ChannelClosed)
    | (w, Raised _) =>
        let error_counter := S error_counter in
        let w := w ++ [WLog ERROR "Unhandled exception in IO worker thread"] in
        if IO_WORKER_ERROR_LIMIT <? error_counter then
          (w ++ [WLog ERROR "Too many errors, stopping!"], Break TooManyErrors)
        else (w, Continue error_counter)
    | (w, Returned _) => (w, Continue 0)
    end
  else ([], Break NotOpen).

(** The loop, on the turns the thread has had so far. *)
Fixpoint loop (its : list iteration) (error_counter : nat) : list worker_effect * control :=
  match its with
  | [] => ([], Continue error_counter)
  | it :: rest =>
      match turn it error_counter with
      | (w, Continue error_counter) =>
          let r := loop rest error_counter in (w ++ fst r, snd r)
      | (w, Break cause) => (w, Break cause)
      end
  end.

Inductive thread_state :=
| Running (error_counter : nat)
| Terminated (cause : exit_cause).

(** [Communicator._thread_entry]: what the thread has done after the given
    turns, and whether it has returned. *)
Definition _thread_entry (its : list iteration) : list worker_effect * thread_state :=
  match loop its 0 with
  | (w, Continue error_counter) => (w, Running error_counter)
  | (w, Break cause) =>
      (w ++ [WLog INFO "IO worker thread is stopping"; WClose], Terminated cause)
  end.

(** The transport is closed at the end of a trace when closing it is the
    last thing the thread did. *)
Definition ends_closed (w : list worker_effect) : bool :=
  match last w with
  | Some WClose => true
  | _ => false
  end.


(** ** The identity test, as a proposition *)

(** The candidate is an application-specific message with the type tag of
    the reference, or a standard message whose class is the class of the
    reference or one of its descendants. *)
Definition same_identity (reference candidate : pyobj) : Prop :=
  (exists m t, candidate = OMessage m /\ eliminate_prototype reference = OMessageType t
               /\ type m = t)
  \/ (exists s c, candidate = OStandard s /\ eliminate_prototype reference = OType c
                  /\ issubclass (type_of_standard s) c = true).

(** The identity test in the words of the specification: for standard
    messages the class of the candidate is exactly the class of the
    reference. *)
Definition same_identity_exact (reference candidate : pyobj) : Prop :=
  (exists m t, candidate = OMessage m /\ eliminate_prototype reference = OMessageType t
               /\ type m = t)
  \/ (exists s, candidate = OStandard s
                /\ eliminate_prototype reference = OType (type_of_standard s)).

(** The combinations that one of the two branches at the end of
    [_match_message] handles. *)
Definition dispatch_covers (reference candidate : pyobj) : bool :=
  let reference := eliminate_prototype reference in
  (is_Message candidate && is_MessageType reference)
  || (is_StandardMessageBase candidate && is_type reference).

(** ** Reading a run of the composite predicate *)

(** The call returned a true value. *)
Definition says_true (r : run (option bool)) : bool :=
  match out r with
  | Returned v => truthy v
  | Raised _ => false
  end.

(** The entry accepts the message: the gate passes and the caller's
    predicate returns true.  [call_entry_says_true] below shows that this is
    when the call of the entry returns a true value, in every state. *)
Definition entry_matches (e : entry) (message : pyobj) : bool :=
  truthy (_match_message (e_reference e) message)
  && match e_predicate e message with
     | Returned true => true
     | _ => false
     end.

(** What the call of the entry logs: the error of a caller's predicate that
    raised behind the gate. *)
Definition entry_log (e : entry) (message : pyobj) : list effect :=
  if truthy (_match_message (e_reference e) message) then
    match e_predicate e message with
    | Returned _ => []
    | Raised _ => [Log ERROR "Unhandled exception in response predicate for message %r: %r"]
    end
  else [].

(** The future at address [f] is there and pending. *)
Definition slot_open (h : list Future) (f : nat) : bool := negb (future_done h f).

(** Counting in a trace. *)
Definition is_set_result (f : nat) (x : effect) : bool :=
  match x with
  | SetResult g _ => Nat.eqb g f
  | _ => false
  end.
Definition is_pending_remove (f : nat) (x : effect) : bool :=
  match x with
  | PendingRemove g => Nat.eqb g f
  | _ => false
  end.
Definition is_pending_add (f : nat) (x : effect) : bool :=
  match x with
  | PendingAdd g => Nat.eqb g f
  | _ => false
  end.
Definition is_transport_io (x : effect) : bool :=
  match x with
  | SendStandard _ | SendApplicationSpecific _ _ => true
  | _ => false
  end.
Definition is_channel_close (x : effect) : bool :=
  match x with
  | ChannelClose => true
  | _ => false
  end.
Definition count (p : effect -> bool) (w : list effect) : nat :=
  length (List.filter p w).

(** The message completes the future at [f]: the future is pending and an
    entry that holds it accepts the message. *)
Definition completes (message : pyobj) (pending : list entry) (h : list Future)
    (f : nat) : bool :=
  slot_open h f
  && existsb (fun e => Nat.eqb (e_future e) f && entry_matches e message) pending.

(** Effects of the matching loop: log records and completions. *)
Definition is_matching_effect (x : effect) : bool :=
  match x with
  | Log _ _ | SetResult _ _ => true
  | _ => false
  end.

(** Effects of item processing: those of the loop and the queue insertion. *)
Definition is_dispatch_effect (x : effect) : bool :=
  match x with
  | Log _ _ | SetResult _ _ | PutMessage _ => true
  | _ => false
  end.

(** Some entry of the set holds a pending future and accepts the message. *)
Definition any_match (message : pyobj) (c : Communicator) : bool :=
  existsb (fun e => slot_open (heap c) (e_future e) && entry_matches e message)
          (_pending_requests c).

Definition error_in_predicate : effect :=
  Log ERROR "Unhandled exception in response predicate for message %r: %r".

(** ** Reading the runs of requests *)

(** The futures of the pending entries are in the heap. *)
Definition well_formed (c : Communicator) : Prop :=
  Forall (fun e => e_future e < length (heap c)) (_pending_requests c).

(** ** Sample values *)

Definition empty_communicator : Communicator :=
  {| _codec := None; _pending_requests := []; _message_queue := []; heap := [] |}.

Definition general_status : Message := {| type := "GENERAL_STATUS"; fields := [("x", 5%Z)] |}.

Definition node_info : StandardMessage :=
  {| std_class := ["NodeInfoMessage"]; std_fields := [("mode", 1%Z)] |}.

Definition always : predicate_fn := fun _ => Returned true.
Definition faulty : predicate_fn := fun _ => Raised (OtherError "AttributeError").

Definition waiting (reference : pyobj) (predicate : predicate_fn) (f : nat) : entry :=
  {| e_reference := reference; e_predicate := predicate; e_future := f |}.

(** Two requests are waiting for a node info message, one sent as an
    instance and one as the base class of the standard messages. *)
Definition two_waiting : Communicator :=
  {| _codec := None;
     _pending_requests := [waiting (OStandard node_info) always 0;
                           waiting (OType StandardMessageBase) always 1];
     _message_queue := [];
     heap := [FPending; FPending] |}.

(** One request is waiting behind a predicate that raises, another behind
    one that does not. *)
Definition faulty_and_sound : Communicator :=
  {| _codec := None;
     _pending_requests := [waiting (OStandard node_info) faulty 0;
                           waiting (OStandard node_info) always 1];
     _message_queue := [];
     heap := [FPending; FPending] |}.

(** A single request waiting behind a predicate that raises. *)
Definition faulty_alone : Communicator :=
  {| _codec := None;
     _pending_requests := [waiting (OStandard node_info) faulty 0];
     _message_queue := [];
     heap := [FPending] |}.

(** A turn in which the channel is open and the body of the [try] raises
    something other than the channel-closed signal. *)
Definition fails (it : iteration) : Prop :=
  is_open it = true
  /\ exists w e, receive_and_route it = (w, Raised e) /\ e <> ChannelClosedException.

Definition failing_turn : iteration :=
  {| is_open := true; received := Raised (OtherError "SerialException");
     scheduled := Returned tt |}.
Definition log_turn : iteration :=
  {| is_open := true; received := Returned (OBytes [x68; x69]); scheduled := Returned tt |}.
Definition closed_turn : iteration :=
  {| is_open := true; received := Raised ChannelClosedException; scheduled := Returned tt |}.
Definition down_turn : iteration :=
  {| is_open := false; received := Returned ONone; scheduled := Returned tt |}.

(** ** The queues on the consumer side *)

(** [Communicator.receive]: the oldest message of the queue; [None] stands
    for a queue that is empty, where the coroutine stays suspended until a
    message is put. *)
Definition receive (c : Communicator) : option (pyobj * Communicator) :=
  match _message_queue c with
  | [] => None
  | m :: q => Some (m, with_queue q c)
  end.

(** [n] calls of [receive] in a row. *)
Fixpoint receive_n (n : nat) (c : Communicator) : option (list pyobj * Communicator) :=
  match n with
  | 0 => Some ([], c)
  | S n =>
      match receive c with
      | None => None
      | Some (m, c') =>
          match receive_n n c' with
          | None => None
          | Some (ms, c'') => Some (m :: ms, c'')
          end
      end
  end.

(** ** Reading the trace of the worker *)

Definition scheduled_callbacks (w : list worker_effect) : list callback :=
  omap (fun x => match x with WCallSoon cb => Some cb | _ => None end) w.

Definition closes (w : list worker_effect) : nat :=
  length (List.filter (fun x => match x with WClose => true | _ => false end) w).

(** What a turn of the loop hands over to the event loop: the log callback
    for bytes, the item callback for anything else but [None], and nothing
    when the receive raised or the scheduling failed. *)
Definition turn_callback (it : iteration) : option callback :=
  match received it, scheduled it with
  | Returned (OBytes b), Returned _ => Some (LogQueuePut b)
  | Returned ONone, _ => None
  | Returned ret, Returned _ => Some (ProcessReceivedItem ret)
  | _, _ => None
  end.

(** ** Invariants of the pending set *)

(** No two entries hold the same future. *)
Definition entries_distinct (c : Communicator) : Prop :=
  NoDup (map e_future (_pending_requests c)).

(** A codec that knows one message type, without fields. *)
Definition bare_status : Message := {| type := "GENERAL_STATUS"; fields := [] |}.

Definition setpoint : Message := {| type := "SETPOINT"; fields := [("value", 3%Z)] |}.

Definition status_codec : Codec :=
  {| encode := fun m => if String.eqb (type m) "GENERAL_STATUS" then Returned (0, [])
                        else Raised (OtherError "ValueError");
     decode := fun f => if Nat.eqb (frame_type_code f) 0 then Returned bare_status
                        else Raised (OtherError "ValueError") |}.

(** An entry of the set whose future is finished. *)
Definition answered_entry : Communicator :=
  {| _codec := Some status_codec;
     _pending_requests := [waiting (OStandard node_info) always 0];
     _message_queue := [];
     heap := [FFinished (OStandard node_info)] |}.

(** * Properties *)

(** ** The send path *)

Lemma then_raise {A B} (m : M A) (e : exn) (c : Communicator) :
  exists e', out ((m ;; @raise B e) c) = Raised e'.
Proof.
  unfold bind. destruct (out (m c)); simpl; eauto.
Qed.

(** A standard message, and a standard message type, is handed to the
    channel, after which the call raises. *)
Lemma send_standard_raises (s : StandardMessage) (c : Communicator) :
  send (OStandard s) c = Run [SendStandard (OStandard s)] c (Raised TypeError).
Proof. reflexivity. Qed.

Lemma send_type_raises (t : pytype) (c : Communicator) :
  send (OType t) c = Run [SendStandard (OType t)] c (Raised TypeError).
Proof. reflexivity. Qed.

(** An application-specific message that the bound codec encodes is handed
    to the channel, after which the call raises. *)
Lemma send_application_raises (m : Message) (codec : Codec) (code : nat)
    (data : list byte) (c : Communicator) :
  _codec c = Some codec ->
  encode codec m = Returned (code, data) ->
  send (OMessage m) c = Run [SendApplicationSpecific code data] c (Raised TypeError).
Proof.
  intros Hc He. unfold send, _do_send, bind, get. simpl.
  rewrite Hc. simpl. rewrite He. reflexivity.
Qed.

(** C1: no call of the send path returns: whatever the message and the
    state of the communicator, [send] ends by raising an exception, also
    after it has handed the message to the channel. *)
Theorem send_never_returns (message : pyobj) (c : Communicator) :
  exists e, out (send message c) = Raised e.
Proof. unfold send, _do_send. apply then_raise. Qed.

(** C8: an application-specific message sent while no codec is bound raises
    [CommunicatorException]; nothing is handed to the channel (the call has
    no effect at all) and the communicator is as it was. *)
Theorem send_application_without_codec (m : Message) (c : Communicator) :
  _codec c = None ->
  send (OMessage m) c = Run [] c (Raised CommunicatorException).
Proof.
  intros Hc. unfold send, _do_send, bind, get. simpl. rewrite Hc. reflexivity.
Qed.

Lemma send_application_without_codec_witness :
  send (OMessage general_status) empty_communicator
  = Run [] empty_communicator (Raised CommunicatorException).
Proof. apply (send_application_without_codec general_status empty_communicator). reflexivity. Defined.

(** ** Identity matching and the composite predicate *)

Lemma match_message_identity (reference candidate : pyobj) :
  truthy (_match_message reference candidate) = true <-> same_identity reference candidate.
Proof.
  unfold _match_message, same_identity. split.
  - destruct candidate as [m| |s| | | | |]; try discriminate;
      destruct (eliminate_prototype reference) as [| t | | k | | | |];
      simpl; try discriminate.
    + destruct (bool_decide (type m = t)) eqn:E; [|discriminate].
      intros _. left. exists m, t. apply bool_decide_eq_true in E. auto.
    + destruct (issubclass (type_of_standard s) k) eqn:E; [|discriminate].
      intros _. right. exists s, k. auto.
  - intros [(m & t & -> & -> & E)|(s & c & -> & -> & E)]; simpl.
    + rewrite bool_decide_eq_true_2; auto.
    + rewrite E. reflexivity.
Qed.

Lemma match_message_uncovered (reference candidate : pyobj) :
  dispatch_covers reference candidate = false ->
  _match_message reference candidate = None.
Proof.
  unfold dispatch_covers, _match_message.
  destruct candidate, (eliminate_prototype reference); simpl; try reflexivity; discriminate.
Qed.

(** The composite predicate when the gate does not pass. *)
Lemma super_predicate_gate_closed (reference : pyobj) (predicate : predicate_fn)
    (candidate : pyobj) (c : Communicator) :
  truthy (_match_message reference candidate) = false ->
  super_predicate reference predicate candidate c = Run [] c (Returned None).
Proof. intros H. unfold super_predicate. rewrite H. reflexivity. Qed.

(** The composite predicate when the gate passes. *)
Lemma super_predicate_gate_open (reference : pyobj) (predicate : predicate_fn)
    (candidate : pyobj) (c : Communicator) :
  truthy (_match_message reference candidate) = true ->
  super_predicate reference predicate candidate c
  = match predicate candidate with
    | Returned b => Run [] c (Returned (Some b))
    | Raised _ =>
        Run [Log ERROR "Unhandled exception in response predicate for message %r: %r"] c
            (Returned None)
    end.
Proof.
  intros H. unfold super_predicate. rewrite H.
  unfold try_except, bind, lift_outcome. destruct (predicate candidate); reflexivity.
Qed.

(** The composite predicate never raises and never changes the state. *)
Lemma super_predicate_returns (reference : pyobj) (predicate : predicate_fn)
    (candidate : pyobj) (c : Communicator) :
  exists v, out (super_predicate reference predicate candidate c) = Returned v
            /\ final (super_predicate reference predicate candidate c) = c
            /\ (truthy v = true ->
                truthy (_match_message reference candidate) = true
                /\ predicate candidate = Returned true
                /\ effects (super_predicate reference predicate candidate c) = []).
Proof.
  destruct (truthy (_match_message reference candidate)) eqn:G.
  - rewrite super_predicate_gate_open by exact G.
    destruct (predicate candidate) as [b|e]; simpl.
    + exists (Some b). repeat split; auto. destruct b; [reflexivity|discriminate].
    + exists None. repeat split; discriminate.
  - rewrite super_predicate_gate_closed by exact G.
    exists None. repeat split; discriminate.
Qed.

(** C10: for a reference and a candidate that neither branch of the type
    dispatch handles (a standard message against an application-specific
    reference and the reverse among them), [_match_message] returns [None];
    the composite predicate built on it then returns [None] as well, without
    raising, logging or consulting the caller's predicate, which the matching
    loop reads as false. *)
Theorem match_message_unrecognized_is_no_match (reference candidate : pyobj)
    (predicate : predicate_fn) (c : Communicator) :
  dispatch_covers reference candidate = false ->
  _match_message reference candidate = None
  /\ truthy (_match_message reference candidate) = false
  /\ super_predicate reference predicate candidate c = Run [] c (Returned None).
Proof.
  intros H. apply match_message_uncovered in H. rewrite H.
  repeat split. apply super_predicate_gate_closed. rewrite H. reflexivity.
Qed.

Lemma match_message_unrecognized_is_no_match_witness :
  (_match_message (OMessage general_status) (OStandard node_info) = None
   /\ truthy (_match_message (OMessage general_status) (OStandard node_info)) = false
   /\ super_predicate (OMessage general_status) always (OStandard node_info) empty_communicator
      = Run [] empty_communicator (Returned None))
  /\ (_match_message (OStandard node_info) (OMessage general_status) = None
      /\ truthy (_match_message (OStandard node_info) (OMessage general_status)) = false
      /\ super_predicate (OStandard node_info) always (OMessage general_status) empty_communicator
         = Run [] empty_communicator (Returned None)).
Proof.
  split.
  - apply (match_message_unrecognized_is_no_match
             (OMessage general_status) (OStandard node_info) always empty_communicator).
    reflexivity.
  - apply (match_message_unrecognized_is_no_match
             (OStandard node_info) (OMessage general_status) always empty_communicator).
    reflexivity.
Defined.

(** ** The matching loop *)

Lemma with_heap_same (c : Communicator) : with_heap (heap c) c = c.
Proof. destruct c; reflexivity. Qed.

Lemma call_entry_run (e : entry) (message : pyobj) (c : Communicator) :
  call_entry e message c
  = Run (entry_log e message) c
        (Returned (if truthy (_match_message (e_reference e) message)
                   then match e_predicate e message with
                        | Returned b => Some b
                        | Raised _ => None
                        end
                   else None)).
Proof.
  unfold call_entry, entry_log.
  destruct (truthy (_match_message (e_reference e) message)) eqn:G.
  - rewrite super_predicate_gate_open by exact G.
    destruct (e_predicate e message); reflexivity.
  - rewrite super_predicate_gate_closed by exact G. reflexivity.
Qed.

Lemma call_entry_says_true (e : entry) (message : pyobj) (c : Communicator) :
  says_true (call_entry e message c) = entry_matches e message.
Proof.
  rewrite call_entry_run. unfold says_true, entry_matches. simpl.
  destruct (truthy (_match_message (e_reference e) message)); simpl; [|reflexivity].
  destruct (e_predicate e message) as [[|]|]; reflexivity.
Qed.

Lemma entry_matches_log (e : entry) (message : pyobj) :
  entry_matches e message = true -> entry_log e message = [].
Proof.
  unfold entry_matches, entry_log.
  destruct (truthy (_match_message (e_reference e) message)); simpl; [|discriminate].
  destruct (e_predicate e message); [reflexivity|discriminate].
Qed.

Lemma run_eta {A} (r : run A) : Run (effects r) (final r) (out r) = r.
Proof. destruct r; reflexivity. Qed.

Lemma bind_returned {A B} (m : M A) (k : A -> M B) (c c' : Communicator)
    (w : list effect) (a : A) :
  m c = Run w c' (Returned a) ->
  (x <- m ;; k x) c = Run (w ++ effects (k a c')) (final (k a c')) (out (k a c')).
Proof. intros H. unfold bind. rewrite H. reflexivity. Qed.

Lemma bind_raised {A B} (m : M A) (k : A -> M B) (c c' : Communicator)
    (w : list effect) (e : exn) :
  m c = Run w c' (Raised e) ->
  (x <- m ;; k x) c = Run w c' (Raised e).
Proof. intros H. unfold bind. rewrite H. reflexivity. Qed.

(** One turn of the loop of [_process_received_item]. *)
Lemma match_pending_cons (message : pyobj) (e : entry) (rest : list entry)
    (b : bool) (c : Communicator) :
  match_pending message (e :: rest) b c
  = if slot_open (heap c) (e_future e) && entry_matches e message then
      let r := match_pending message rest true
                 (with_heap (<[e_future e := FFinished message]> (heap c)) c) in
      Run (Log DEBUG "Matching response: %r %r" :: SetResult (e_future e) message :: effects r)
          (final r) (out r)
    else
      let r := match_pending message rest b c in
      Run ((if slot_open (heap c) (e_future e) then entry_log e message else []) ++ effects r)
          (final r) (out r).
Proof.
  unfold slot_open. simpl match_pending.
  rewrite (bind_returned get _ c c [] c) by reflexivity. simpl.
  destruct (future_done (heap c) (e_future e)) eqn:D; simpl.
  - reflexivity.
  - rewrite (bind_returned _ _ c c _ _ (call_entry_run e message c)).
    unfold entry_matches, entry_log.
    destruct (truthy (_match_message (e_reference e) message)) eqn:G; simpl;
      [|reflexivity].
    destruct (e_predicate e message) as [[|]|] eqn:P; simpl;
      [|reflexivity|reflexivity].
    rewrite (bind_returned (set_result (e_future e) message) _ c
               (with_heap (<[e_future e := FFinished message]> (heap c)) c)
               [SetResult (e_future e) message] tt).
    + reflexivity.
    + unfold set_result.
      rewrite (bind_returned get _ c c [] c) by reflexivity. rewrite D. reflexivity.
Qed.

Lemma count_app (p : effect -> bool) (w1 w2 : list effect) :
  count p (w1 ++ w2) = count p w1 + count p w2.
Proof. unfold count. rewrite List.filter_app, length_app. reflexivity. Qed.

Lemma count_cons (p : effect -> bool) (x : effect) (w : list effect) :
  count p (x :: w) = (if p x then 1 else 0) + count p w.
Proof. unfold count. simpl. destruct (p x); reflexivity. Qed.

Lemma count_nil (p : effect -> bool) : count p [] = 0.
Proof. reflexivity. Qed.

Lemma count_none (p q : effect -> bool) (w : list effect) :
  (forall x, q x = true -> p x = false) ->
  Forall (fun x => q x = true) w ->
  count p w = 0.
Proof.
  intros Hpq Hw. induction Hw as [|x w Hx _ IH]; [reflexivity|].
  rewrite count_cons, IH, (Hpq x Hx). reflexivity.
Qed.

Lemma entry_log_matching (e : entry) (message : pyobj) :
  Forall (fun x => is_matching_effect x = true) (entry_log e message).
Proof.
  unfold entry_log. destruct (truthy _); [|constructor].
  destruct (e_predicate e message); repeat constructor.
Qed.

Lemma entry_log_no_set_result (e : entry) (message : pyobj) (f : nat) :
  count (is_set_result f) (entry_log e message) = 0.
Proof.
  unfold entry_log. destruct (truthy _); [|reflexivity].
  destruct (e_predicate e message); reflexivity.
Qed.

Lemma slot_open_lookup (h : list Future) (f : nat) :
  slot_open h f = true <-> h !! f = Some FPending.
Proof.
  unfold slot_open, future_done. destruct (h !! f) as [[| |]|]; simpl; split; congruence.
Qed.

Lemma slot_open_insert_ne (h : list Future) (f g : nat) (x : Future) :
  g <> f -> slot_open (<[g := x]> h) f = slot_open h f.
Proof.
  intros H. unfold slot_open, future_done. rewrite list_lookup_insert_ne by exact H.
  reflexivity.
Qed.

Lemma slot_closed_finished (h : list Future) (f : nat) (v : pyobj) :
  slot_open (<[f := FFinished v]> h) f = false.
Proof.
  unfold slot_open, future_done.
  destruct (decide (f < length h)) as [Hlt|Hge].
  - rewrite list_lookup_insert_eq by exact Hlt. reflexivity.
  - rewrite list_insert_ge by lia. rewrite lookup_ge_None_2 by lia. reflexivity.
Qed.

(** The matching loop, in full: it returns, it changes nothing but the
    heap, where it finishes exactly the futures that the message completes,
    each by one [set_result], and the flag it returns tells whether there
    was one. *)
Lemma match_pending_spec (message : pyobj) (pending : list entry) :
  forall (b : bool) (c : Communicator),
    let r := match_pending message pending b c in
    out r = Returned
              (b || existsb (fun e => slot_open (heap c) (e_future e) && entry_matches e message)
                      pending)
    /\ (exists h', final r = with_heap h' c /\ length h' = length (heap c)
        /\ forall f, h' !! f = if completes message pending (heap c) f
                               then Some (FFinished message) else heap c !! f)
    /\ (forall f, count (is_set_result f) (effects r)
                  = if completes message pending (heap c) f then 1 else 0)
    /\ Forall (fun x => is_matching_effect x = true) (effects r).
Proof.
  induction pending as [|e rest IH]; intros b c r.
  - subst r. simpl. repeat split.
    + rewrite orb_false_r. reflexivity.
    + exists (heap c). rewrite with_heap_same. repeat split.
      intros f. unfold completes. simpl. rewrite andb_false_r. reflexivity.
    + intros f. unfold completes. simpl. rewrite andb_false_r. reflexivity.
    + constructor.
  - subst r. rewrite match_pending_cons.
    destruct (slot_open (heap c) (e_future e) && entry_matches e message) eqn:Hd.
    + apply andb_true_iff in Hd as [Ho Hm].
      set (c1 := with_heap (<[e_future e := FFinished message]> (heap c)) c).
      destruct (IH true c1) as (Hout & (h' & Hfin & Hlen & Hh) & Hcnt & Hall).
      cbv zeta. simpl effects. simpl final. simpl out.
      assert (Hlt : e_future e < length (heap c)).
      { apply slot_open_lookup in Ho. eapply lookup_lt_Some; eauto. }
      assert (Hclosed : completes message rest (heap c1) (e_future e) = false).
      { unfold completes, c1. simpl heap. rewrite slot_closed_finished. reflexivity. }
      assert (Hcomp : forall f,
                 completes message (e :: rest) (heap c) f
                 = if Nat.eqb (e_future e) f then true
                   else completes message rest (heap c1) f).
      { intros f. unfold completes. simpl existsb. unfold c1. simpl heap.
        destruct (Nat.eqb_spec (e_future e) f) as [<-|E].
        - rewrite Ho, Hm. reflexivity.
        - rewrite slot_open_insert_ne by exact E. reflexivity. }
      repeat split.
      * rewrite Hout. simpl. rewrite Ho, Hm. simpl. rewrite orb_true_r. reflexivity.
      * exists h'. split; [rewrite Hfin; destruct c; reflexivity|].
        split; [rewrite Hlen; unfold c1; simpl; apply length_insert|].
        intros f. rewrite Hh, Hcomp.
        destruct (Nat.eqb_spec (e_future e) f) as [<-|E].
        -- rewrite Hclosed. unfold c1. simpl heap.
           apply list_lookup_insert_eq. exact Hlt.
        -- destruct (completes message rest (heap c1) f); [reflexivity|].
           unfold c1. simpl heap. apply list_lookup_insert_ne. exact E.
      * intros f. rewrite !count_cons, Hcnt, Hcomp. simpl is_set_result.
        destruct (Nat.eqb_spec (e_future e) f) as [<-|E].
        -- rewrite Hclosed. reflexivity.
        -- destruct (completes message rest (heap c1) f); reflexivity.
      * repeat constructor. exact Hall.
    + destruct (IH b c) as (Hout & (h' & Hfin & Hlen & Hh) & Hcnt & Hall).
      cbv zeta. simpl effects. simpl final. simpl out.
      assert (Hcomp : forall f, completes message (e :: rest) (heap c) f
                                = completes message rest (heap c) f).
      { intros f. unfold completes. simpl existsb.
        destruct (Nat.eqb (e_future e) f) eqn:E; [|reflexivity].
        apply Nat.eqb_eq in E. subst f.
        destruct (slot_open (heap c) (e_future e)); [|reflexivity].
        simpl in Hd. rewrite Hd. reflexivity. }
      repeat split.
      * rewrite Hout. simpl. rewrite Hd. reflexivity.
      * exists h'. repeat split; auto. intros f. rewrite Hh, Hcomp. reflexivity.
      * intros f. rewrite count_app, Hcnt, Hcomp.
        destruct (slot_open (heap c) (e_future e));
          [rewrite entry_log_no_set_result|]; reflexivity.
      * apply Forall_app. split; [|exact Hall].
        destruct (slot_open (heap c) (e_future e)); [apply entry_log_matching|constructor].
Qed.

(** ** Item processing *)

(** The three ways the first half of [_process_received_item] ends. *)
Lemma item_message_cases (item : pyobj) (c : Communicator) :
  (exists message, item_message item c = Run [] c (Returned (Some message))
                   /\ ((exists s, item = OStandard s /\ message = item)
                       \/ (exists f codec m, item = OFrame f /\ _codec c = Some codec
                                             /\ decode codec f = Returned m
                                             /\ message = OMessage m)))
  \/ (exists t f, item = OFrame f
                  /\ item_message item c = Run [Log WARNING t] c (Returned None)
                  /\ (_codec c = None
                      \/ exists codec ex, _codec c = Some codec /\ decode codec f = Raised ex))
  \/ (item_message item c = Run [] c (Raised TypeError)
      /\ is_StandardMessageBase item = false /\ is_ReceivedFrame item = false).
Proof.
  destruct item as [m|t|s|k|f|b| |z]; try (right; right; repeat split; reflexivity).
  - left. exists (OStandard s). split; [reflexivity|]. left. eauto.
  - unfold item_message. rewrite (bind_returned get _ c c [] c) by reflexivity.
    destruct (_codec c) as [codec|] eqn:Hc; simpl.
    + unfold try_except, bind, lift_outcome.
      destruct (decode codec f) as [m|ex] eqn:Hd; simpl.
      * left. exists (OMessage m). split; [reflexivity|]. right. exists f, codec, m. auto.
      * right. left. eexists _, f. split; [reflexivity|]. split; [reflexivity|].
        right. eauto.
    + right. left. eexists _, f. split; [reflexivity|]. split; [reflexivity|]. left. reflexivity.
Qed.

Lemma item_message_some (item message : pyobj) (c : Communicator) :
  out (item_message item c) = Returned (Some message) ->
  item_message item c = Run [] c (Returned (Some message)).
Proof.
  intros H.
  destruct (item_message_cases item c)
    as [(m & Hr & _)|[(t & f & _ & Hr & _)|(Hr & _)]]; rewrite Hr in H |- *; simpl in H.
  - congruence.
  - discriminate.
  - discriminate.
Qed.

(** Item processing for an item that yields a message. *)
Lemma process_item_spec (item message : pyobj) (c : Communicator) :
  out (item_message item c) = Returned (Some message) ->
  let r := _process_received_item item c in
  out r = Returned tt
  /\ (exists h',
        final r = with_queue (if any_match message c then _message_queue c
                              else _message_queue c ++ [message])
                             (with_heap h' c)
        /\ length h' = length (heap c)
        /\ forall f, h' !! f = if completes message (_pending_requests c) (heap c) f
                               then Some (FFinished message) else heap c !! f)
  /\ (forall f, count (is_set_result f) (effects r)
                = if completes message (_pending_requests c) (heap c) f then 1 else 0)
  /\ Forall (fun x => is_dispatch_effect x = true) (effects r).
Proof.
  intros H. apply item_message_some in H. intros r. subst r.
  unfold _process_received_item.
  rewrite (bind_returned _ _ c c [] (Some message) H).
  rewrite (bind_returned get _ c c [] c) by reflexivity.
  destruct (match_pending_spec message (_pending_requests c) false c)
    as (Hout & (h' & Hfin & Hlen & Hh) & Hcnt & Hall).
  unfold bind. rewrite Hout. fold (any_match message c). simpl orb.
  rewrite Hfin.
  assert (Hd : Forall (fun x => is_dispatch_effect x = true)
                 (effects (match_pending message (_pending_requests c) false c))).
  { eapply Forall_impl; [exact Hall|]. intros [] Hx; try discriminate; reflexivity. }
  destruct (any_match message c) eqn:Hm; simpl.
  - split; [reflexivity|]. split; [|split].
    + exists h'. repeat split; auto.
    + intros f. rewrite !app_nil_r. apply Hcnt.
    + rewrite !app_nil_r. exact Hd.
  - split; [reflexivity|]. split; [|split].
    + exists h'. repeat split; auto.
    + intros f. rewrite count_app, Hcnt, count_cons, count_nil. simpl. lia.
    + apply Forall_app. split; [exact Hd|]. repeat constructor.
Qed.

Lemma any_match_true (message : pyobj) (c : Communicator) :
  any_match message c = true
  <-> exists e, e ∈ _pending_requests c /\ heap c !! e_future e = Some FPending
                /\ says_true (call_entry e message c) = true.
Proof.
  unfold any_match. rewrite existsb_exists. split.
  - intros (e & Hin & H). apply andb_true_iff in H as [Ho Hm].
    exists e. rewrite list_elem_of_In, call_entry_says_true, <- slot_open_lookup. auto.
  - intros (e & Hin & Ho & Hm). exists e.
    rewrite list_elem_of_In, call_entry_says_true, <- slot_open_lookup in *.
    rewrite Ho, Hm. auto.
Qed.

Lemma completes_true (message : pyobj) (pending : list entry) (h : list Future) (f : nat) :
  completes message pending h f = true
  <-> h !! f = Some FPending
      /\ exists e, e ∈ pending /\ e_future e = f /\ entry_matches e message = true.
Proof.
  unfold completes. rewrite andb_true_iff, slot_open_lookup, existsb_exists.
  split; intros [Ho (e & Hin & H)]; (split; [exact Ho|]); exists e.
  - apply andb_true_iff in H as [E Hm]. apply Nat.eqb_eq in E.
    rewrite list_elem_of_In. auto.
  - destruct H as [E Hm]. rewrite list_elem_of_In in Hin.
    rewrite Hm, (proj2 (Nat.eqb_eq _ _) E). auto.
Qed.

(** C2: when the received item yields a message, the call returns; every
    entry whose future is still pending and whose predicate returns true for
    the message has its future finished with that message, however many
    entries that is; the message is appended to the message queue when no
    entry matched, and the queue is left as it was when some entry did. *)
Theorem process_item_completes_matching (item message : pyobj) (c : Communicator) :
  out (item_message item c) = Returned (Some message) ->
  let r := _process_received_item item c in
  out r = Returned tt
  /\ (forall e, e ∈ _pending_requests c ->
                heap c !! e_future e = Some FPending ->
                says_true (call_entry e message c) = true ->
                heap (final r) !! e_future e = Some (FFinished message))
  /\ ((forall e, e ∈ _pending_requests c ->
                 heap c !! e_future e = Some FPending ->
                 says_true (call_entry e message c) = false) ->
      _message_queue (final r) = _message_queue c ++ [message])
  /\ ((exists e, e ∈ _pending_requests c /\ heap c !! e_future e = Some FPending
                 /\ says_true (call_entry e message c) = true) ->
      _message_queue (final r) = _message_queue c).
Proof.
  intros H r.
  destruct (process_item_spec item message c H) as (Hout & (h' & Hfin & _ & Hh) & _).
  fold r in Hout, Hfin. split; [exact Hout|]. rewrite Hfin. simpl. split; [|split].
  - intros e Hin Ho Hm. rewrite Hh.
    rewrite (proj2 (completes_true message (_pending_requests c) (heap c) (e_future e)));
      [reflexivity|].
    split; [exact Ho|]. exists e. rewrite <- call_entry_says_true with (c := c). auto.
  - intros Hnone. destruct (any_match message c) eqn:Hm; [|reflexivity].
    apply any_match_true in Hm as (e & Hin & Ho & Ht).
    rewrite (Hnone e Hin Ho) in Ht. discriminate.
  - intros Hsome. apply any_match_true in Hsome. rewrite Hsome. reflexivity.
Qed.

Lemma process_item_completes_matching_witness :
  let r := _process_received_item (OStandard node_info) two_waiting in
  out r = Returned tt
  /\ (forall e, e ∈ _pending_requests two_waiting ->
                heap two_waiting !! e_future e = Some FPending ->
                says_true (call_entry e (OStandard node_info) two_waiting) = true ->
                heap (final r) !! e_future e = Some (FFinished (OStandard node_info)))
  /\ ((forall e, e ∈ _pending_requests two_waiting ->
                 heap two_waiting !! e_future e = Some FPending ->
                 says_true (call_entry e (OStandard node_info) two_waiting) = false) ->
      _message_queue (final r) = _message_queue two_waiting ++ [OStandard node_info])
  /\ ((exists e, e ∈ _pending_requests two_waiting
                 /\ heap two_waiting !! e_future e = Some FPending
                 /\ says_true (call_entry e (OStandard node_info) two_waiting) = true) ->
      _message_queue (final r) = _message_queue two_waiting).
Proof.
  apply (process_item_completes_matching (OStandard node_info) (OStandard node_info) two_waiting).
  reflexivity.
Defined.

(** Both waiting requests are completed by the one message, which is not
    queued. *)
Example broadcast_completion :
  final (_process_received_item (OStandard node_info) two_waiting)
  = with_heap [FFinished (OStandard node_info); FFinished (OStandard node_info)] two_waiting.
Proof. vm_compute. reflexivity. Qed.

(** With nobody waiting, the message is queued. *)
Example unmatched_is_queued :
  final (_process_received_item (OStandard node_info) empty_communicator)
  = with_queue [OStandard node_info] empty_communicator.
Proof. vm_compute. reflexivity. Qed.

(** ** An entry that does not accept the message *)

(** The loop does not look at the set of the communicator, only at the list
    it was given. *)
Lemma match_pending_frame (message : pyobj) (p pending : list entry) :
  forall (b : bool) (c : Communicator),
    match_pending message pending b (with_pending p c)
    = let r := match_pending message pending b c in
      Run (effects r) (with_pending p (final r)) (out r).
Proof.
  induction pending as [|x rest IH]; intros b c; [reflexivity|].
  rewrite !match_pending_cons. simpl heap.
  destruct (slot_open (heap c) (e_future x) && entry_matches x message).
  - change (with_heap (<[e_future x:=FFinished message]> (heap c)) (with_pending p c))
      with (with_pending p (with_heap (<[e_future x:=FFinished message]> (heap c)) c)).
    rewrite IH. reflexivity.
  - rewrite IH. reflexivity.
Qed.

(** Taking an entry that does not accept the message out of the list changes
    nothing but the log, which loses what the call of that entry logged. *)
Lemma match_pending_skip (message : pyobj) (e : entry) (after : list entry) :
  entry_matches e message = false ->
  forall (before : list entry) (b : bool) (c : Communicator),
    Forall (fun x => e_future x <> e_future e) before ->
    let r := match_pending message (before ++ e :: after) b c in
    let r' := match_pending message (before ++ after) b c in
    final r = final r' /\ out r = out r'
    /\ exists w1 w2,
         effects r' = w1 ++ w2
         /\ effects r
            = w1 ++ (if slot_open (heap c) (e_future e) then entry_log e message else []) ++ w2.
Proof.
  intros Hm before. induction before as [|x bs IH]; intros b c Hne r r'; subst r r'.
  - simpl app. rewrite match_pending_cons, Hm, andb_false_r. cbv zeta. simpl.
    repeat split. exists [], (effects (match_pending message after b c)). auto.
  - apply Forall_cons in Hne as [Hx Hbs]. simpl app. rewrite !match_pending_cons.
    destruct (slot_open (heap c) (e_future x) && entry_matches x message).
    + set (c1 := with_heap (<[e_future x:=FFinished message]> (heap c)) c).
      destruct (IH true c1 Hbs) as (Hf & Ho & w1 & w2 & H1 & H2).
      cbv zeta. simpl. repeat split; auto.
      exists (Log DEBUG "Matching response: %r %r" :: SetResult (e_future x) message :: w1), w2.
      rewrite H1, H2. unfold c1. simpl heap. rewrite slot_open_insert_ne by exact Hx.
      auto.
    + destruct (IH b c Hbs) as (Hf & Ho & w1 & w2 & H1 & H2).
      cbv zeta. simpl. repeat split; auto.
      exists ((if slot_open (heap c) (e_future x) then entry_log x message else []) ++ w1), w2.
      rewrite H1, H2, <- !app_assoc. auto.
Qed.

Lemma item_message_codec (item : pyobj) (c c' : Communicator) :
  _codec c' = _codec c ->
  out (item_message item c') = out (item_message item c).
Proof.
  intros H. destruct item; try reflexivity.
  unfold item_message.
  rewrite (bind_returned get _ c c [] c), (bind_returned get _ c' c' [] c') by reflexivity.
  rewrite H. destruct (_codec c) as [codec|]; [|reflexivity].
  unfold try_except, bind, lift_outcome. destruct (decode codec f); reflexivity.
Qed.

(** Item processing is the matching loop followed by the queue insertion. *)
Lemma process_item_unfold (item message : pyobj) (c : Communicator) :
  out (item_message item c) = Returned (Some message) ->
  _process_received_item item c
  = (at_least_one_match <- match_pending message (_pending_requests c) false ;;
     if at_least_one_match then ret tt else put_nowait message) c.
Proof.
  intros H. apply item_message_some in H. unfold _process_received_item.
  rewrite (bind_returned _ _ c c [] (Some message) H).
  rewrite (bind_returned get _ c c [] c) by reflexivity.
  simpl. apply run_eta.
Qed.

Lemma raising_entry_no_match (e : entry) (message : pyobj) (ex : exn) :
  e_predicate e message = Raised ex -> entry_matches e message = false.
Proof. intros H. unfold entry_matches. rewrite H. apply andb_false_r. Qed.

Lemma raising_entry_log (e : entry) (message : pyobj) (ex : exn) :
  truthy (_match_message (e_reference e) message) = true ->
  e_predicate e message = Raised ex ->
  entry_log e message = [error_in_predicate].
Proof. intros G H. unfold entry_log. rewrite G, H. reflexivity. Qed.

(** A request whose predicate raises on the message: what item processing
    does with it and with the rest of the set. *)
Lemma raising_entry_skipped (item message : pyobj)
    (before after : list entry) (e : entry) (ex : exn) (c : Communicator) :
  out (item_message item c) = Returned (Some message) ->
  _pending_requests c = before ++ e :: after ->
  Forall (fun x => e_future x <> e_future e) (before ++ after) ->
  heap c !! e_future e = Some FPending ->
  truthy (_match_message (e_reference e) message) = true ->
  e_predicate e message = Raised ex ->
  let r := _process_received_item item c in
  let r' := _process_received_item item (with_pending (before ++ after) c) in
  out r = Returned tt
  /\ In error_in_predicate (effects r)
  /\ heap (final r) !! e_future e = Some FPending
  /\ heap (final r) = heap (final r')
  /\ _message_queue (final r) = _message_queue (final r')
  /\ out r = out r'
  /\ exists w1 w2, effects r' = w1 ++ w2 /\ effects r = w1 ++ error_in_predicate :: w2.
Proof.
  intros Hitem Hp Hne Ho G Hraise r r'.
  assert (Hm : entry_matches e message = false) by (eapply raising_entry_no_match; eauto).
  apply Forall_app in Hne as [Hb Ha].
  destruct (match_pending_skip message e after Hm before false c Hb)
    as (Hf & Hout & w1 & w2 & H1 & H2).
  rewrite (proj2 (slot_open_lookup _ _) Ho), (raising_entry_log e message ex G Hraise) in H2.
  destruct (match_pending_spec message (before ++ e :: after) false c)
    as (Hflag & (h' & Hfin & _ & Hh) & _).
  assert (Hr : r = (at_least_one_match <- match_pending message (before ++ e :: after) false ;;
                    if at_least_one_match then ret tt else put_nowait message) c).
  { subst r. rewrite (process_item_unfold item message c Hitem), Hp. reflexivity. }
  assert (Hr' : r' = (at_least_one_match <- match_pending message (before ++ after) false ;;
                      if at_least_one_match then ret tt else put_nowait message)
                       (with_pending (before ++ after) c)).
  { subst r'. apply process_item_unfold.
    rewrite (item_message_codec item c) by reflexivity. exact Hitem. }
  rewrite Hr, Hr'. unfold bind. rewrite match_pending_frame. cbv zeta. simpl out at 2 4.
  rewrite <- Hout, Hflag. simpl final. simpl effects. rewrite <- Hf, H1, H2.
  assert (Hkeep : h' !! e_future e = Some FPending).
  { rewrite Hh. destruct (completes _ _ _ _) eqn:Hc; [|exact Ho].
    apply completes_true in Hc as (_ & x & Hin & Hx & Hxm).
    apply elem_of_app in Hin as [Hin|Hin].
    - rewrite Forall_forall in Hb. destruct (Hb x Hin Hx).
    - apply elem_of_cons in Hin as [->|Hin]; [congruence|].
      rewrite Forall_forall in Ha. destruct (Ha x Hin Hx). }
  simpl orb. rewrite Hfin. destruct (existsb _ (before ++ e :: after)); simpl.
  - repeat split; auto.
    + rewrite app_nil_r. apply in_or_app. right. left. reflexivity.
    + exists w1, w2. rewrite !app_nil_r. auto.
  - repeat split; auto.
    + apply in_or_app. left. apply in_or_app. right. left. reflexivity.
    + exists w1, (w2 ++ [PutMessage message]). rewrite <- !app_assoc. auto.
Qed.

(** C9: when the caller's predicate of a pending request raises on the
    message it is evaluated against, item processing still returns (the
    exception is not propagated), the error is logged, the future of that
    request stays pending, and the pass over the other entries goes as it
    would without that request: the same heap, the same queue, the same
    effects but for the one error record. *)
Theorem raising_predicate_is_contained (item message : pyobj)
    (before after : list entry) (e : entry) (ex : exn) (c : Communicator) :
  out (item_message item c) = Returned (Some message) ->
  _pending_requests c = before ++ e :: after ->
  Forall (fun x => e_future x <> e_future e) (before ++ after) ->
  heap c !! e_future e = Some FPending ->
  truthy (_match_message (e_reference e) message) = true ->
  e_predicate e message = Raised ex ->
  let r := _process_received_item item c in
  let r' := _process_received_item item (with_pending (before ++ after) c) in
  out r = Returned tt
  /\ In error_in_predicate (effects r)
  /\ heap (final r) !! e_future e = Some FPending
  /\ heap (final r) = heap (final r')
  /\ _message_queue (final r) = _message_queue (final r')
  /\ out r = out r'
  /\ exists w1 w2, effects r' = w1 ++ w2 /\ effects r = w1 ++ error_in_predicate :: w2.
Proof. apply raising_entry_skipped. Qed.

Lemma raising_predicate_is_contained_witness :
  let r := _process_received_item (OStandard node_info) faulty_and_sound in
  let r' := _process_received_item (OStandard node_info)
              (with_pending ([] ++ [waiting (OStandard node_info) always 1]) faulty_and_sound) in
  out r = Returned tt
  /\ In error_in_predicate (effects r)
  /\ heap (final r) !! 0 = Some FPending
  /\ heap (final r) = heap (final r')
  /\ _message_queue (final r) = _message_queue (final r')
  /\ out r = out r'
  /\ exists w1 w2, effects r' = w1 ++ w2 /\ effects r = w1 ++ error_in_predicate :: w2.
Proof.
  apply (raising_predicate_is_contained (OStandard node_info) (OStandard node_info)
           [] [waiting (OStandard node_info) always 1]
           (waiting (OStandard node_info) faulty 0) (OtherError "AttributeError")
           faulty_and_sound).
  - reflexivity.
  - reflexivity.
  - repeat constructor. simpl. lia.
  - reflexivity.
  - reflexivity.
  - reflexivity.
Defined.

(** The request behind the sound predicate is completed all the same. *)
Example sound_request_completed :
  heap (final (_process_received_item (OStandard node_info) faulty_and_sound))
  = [FPending; FFinished (OStandard node_info)].
Proof. vm_compute. reflexivity. Qed.

(** ** Errors met while an item is processed *)

Lemma process_item_dropped (item : pyobj) (t : string) (c : Communicator) :
  item_message item c = Run [Log WARNING t] c (Returned None) ->
  _process_received_item item c = Run [Log WARNING t] c (Returned tt).
Proof.
  intros H. unfold _process_received_item.
  rewrite (bind_returned _ _ c c _ None H). reflexivity.
Qed.

Lemma process_item_type_error (item : pyobj) (c : Communicator) :
  item_message item c = Run [] c (Raised TypeError) ->
  _process_received_item item c = Run [] c (Raised TypeError).
Proof.
  intros H. unfold _process_received_item.
  rewrite (bind_raised _ _ c c [] TypeError H). reflexivity.
Qed.

(** Item processing leaves the channel, the pending set and the codec
    alone. *)
Lemma process_item_keeps_link (item : pyobj) (c : Communicator) :
  let r := _process_received_item item c in
  count is_transport_io (effects r) = 0
  /\ count is_channel_close (effects r) = 0
  /\ _pending_requests (final r) = _pending_requests c
  /\ _codec (final r) = _codec c
  /\ length (heap (final r)) = length (heap c).
Proof.
  intros r. subst r.
  destruct (item_message_cases item c)
    as [(m & Hr & _)|[(t & f & _ & Hr & _)|(Hr & _)]].
  - assert (H : out (item_message item c) = Returned (Some m)) by (rewrite Hr; reflexivity).
    destruct (process_item_spec item m c H) as (_ & (h' & Hfin & Hlen & _) & _ & Hall).
    rewrite Hfin. simpl. repeat split; try exact Hlen.
    + eapply count_none; [|exact Hall]. intros [] Hx; try discriminate; reflexivity.
    + eapply count_none; [|exact Hall]. intros [] Hx; try discriminate; reflexivity.
  - rewrite (process_item_dropped item t c Hr). repeat split.
  - rewrite (process_item_type_error item c Hr). repeat split.
Qed.

(** What item processing does with a message, entry by entry. *)
Lemma process_item_by_entry (item message : pyobj) (c : Communicator) :
  out (item_message item c) = Returned (Some message) ->
  let r := _process_received_item item c in
  (forall e, e ∈ _pending_requests c ->
             heap c !! e_future e = Some FPending ->
             entry_matches e message = true ->
             heap (final r) !! e_future e = Some (FFinished message))
  /\ _message_queue (final r)
     = if any_match message c then _message_queue c else _message_queue c ++ [message].
Proof.
  intros H r.
  destruct (process_item_spec item message c H) as (_ & (h' & Hfin & _ & Hh) & _).
  fold r in Hfin. rewrite Hfin. simpl. split; [|reflexivity].
  intros e Hin Ho Hm. rewrite Hh.
  rewrite (proj2 (completes_true message (_pending_requests c) (heap c) (e_future e)));
    [reflexivity|].
  split; [exact Ho|]. exists e. auto.
Qed.

(** C4, as the code has it: a frame that cannot be decoded (no codec is
    bound, or the codec raises) is logged as a warning and dropped, the call
    returns and the communicator is as it was; an exception of the caller's
    predicate of a pending request is logged and swallowed, the call returns
    and that request stays pending, and the message is still matched against
    the other entries: each of them that is pending and accepts the message
    has its future finished with it, the message is appended to the message
    queue when none of them does and the queue is left as it was when one
    does, heap and queue being those of the pass without the raising
    request; an item that is neither a standard message nor a received frame
    raises [TypeError] out of [_process_received_item], which logs nothing
    and changes nothing.  In no case is the channel closed or written to, or
    the pending set or the codec changed. *)
Theorem transient_errors_in_item_processing (item : pyobj) (c : Communicator) :
  let r := _process_received_item item c in
  (forall f, item = OFrame f ->
             (_codec c = None
              \/ exists codec ex, _codec c = Some codec /\ decode codec f = Raised ex) ->
             exists t, r = Run [Log WARNING t] c (Returned tt))
  /\ (is_StandardMessageBase item = false -> is_ReceivedFrame item = false ->
      r = Run [] c (Raised TypeError))
  /\ (forall message before after e ex,
        out (item_message item c) = Returned (Some message) ->
        _pending_requests c = before ++ e :: after ->
        Forall (fun x => e_future x <> e_future e) (before ++ after) ->
        heap c !! e_future e = Some FPending ->
        truthy (_match_message (e_reference e) message) = true ->
        e_predicate e message = Raised ex ->
        out r = Returned tt /\ In error_in_predicate (effects r)
        /\ heap (final r) !! e_future e = Some FPending
        /\ (forall e', e' ∈ before ++ after ->
                       heap c !! e_future e' = Some FPending ->
                       says_true (call_entry e' message c) = true ->
                       heap (final r) !! e_future e' = Some (FFinished message))
        /\ ((forall e', e' ∈ before ++ after ->
                        heap c !! e_future e' = Some FPending ->
                        says_true (call_entry e' message c) = false) ->
            _message_queue (final r) = _message_queue c ++ [message])
        /\ ((exists e', e' ∈ before ++ after /\ heap c !! e_future e' = Some FPending
                        /\ says_true (call_entry e' message c) = true) ->
            _message_queue (final r) = _message_queue c)
        /\ heap (final r)
           = heap (final (_process_received_item item (with_pending (before ++ after) c)))
        /\ _message_queue (final r)
           = _message_queue
               (final (_process_received_item item (with_pending (before ++ after) c))))
  /\ count is_transport_io (effects r) = 0
  /\ count is_channel_close (effects r) = 0
  /\ _pending_requests (final r) = _pending_requests c
  /\ _codec (final r) = _codec c.
Proof.
  intros r. split; [|split; [|split]].
  - intros f -> Hbad. subst r.
    destruct (item_message_cases (OFrame f) c)
      as [(m & _ & [(s & Hs & _)|(f' & codec & m' & Hf & Hc & Hd & _)])
         |[(t & f' & _ & Hr & _)|(_ & _ & Hf)]].
    + discriminate.
    + injection Hf as <-. destruct Hbad as [Hn|(codec' & ex & Hc' & Hd')]; congruence.
    + exists t. apply process_item_dropped. exact Hr.
    + discriminate.
  - intros Hs Hf. subst r. apply process_item_type_error.
    destruct item; try discriminate; reflexivity.
  - intros message before after e ex Hitem Hp Hne Ho G Hraise.
    destruct (raising_entry_skipped item message before after e ex c Hitem Hp Hne Ho G Hraise)
      as (H1 & H2 & H3 & H4 & H5 & _).
    destruct (process_item_by_entry item message c Hitem) as [Hfin Hq].
    fold r in Hfin, Hq.
    assert (Hin : forall e', e' ∈ before ++ after -> e' ∈ _pending_requests c).
    { intros e' He'. rewrite Hp. apply elem_of_app in He' as [He'|He'];
        apply elem_of_app; [left; exact He'|right; right; exact He']. }
    split; [exact H1|]. split; [exact H2|]. split; [exact H3|].
    split; [|split; [|split; [|split; [exact H4|exact H5]]]].
    + intros e' He' Hopen Ht. rewrite call_entry_says_true in Ht.
      apply Hfin; [apply Hin; exact He'|exact Hopen|exact Ht].
    + intros Hnone. rewrite Hq. destruct (any_match message c) eqn:Hm; [|reflexivity].
      apply any_match_true in Hm as (x & Hx & Hxo & Hxt).
      rewrite Hp in Hx. apply elem_of_app in Hx as [Hx|Hx].
      * rewrite (Hnone x) in Hxt; [discriminate| |exact Hxo].
        apply elem_of_app. left. exact Hx.
      * apply elem_of_cons in Hx as [->|Hx].
        -- rewrite call_entry_says_true, (raising_entry_no_match e message ex Hraise) in Hxt.
           discriminate.
        -- rewrite (Hnone x) in Hxt; [discriminate| |exact Hxo].
           apply elem_of_app. right. exact Hx.
    + intros (e' & He' & Hopen & Ht). rewrite Hq.
      rewrite (proj2 (any_match_true message c)); [reflexivity|].
      exists e'. split; [apply Hin; exact He'|]. split; [exact Hopen|exact Ht].
  - destruct (process_item_keeps_link item c) as (H1 & H2 & H3 & H4 & _). auto.
Qed.

(** C4, refuted as stated: an item of an unexpected type is not logged by
    item processing and its [TypeError] leaves the entry point; and a message
    on which the only pending predicate raises is not dropped but queued. *)
Lemma unexpected_item_raises_and_faulty_match_is_queued :
  _process_received_item (OInt 7) empty_communicator
  = Run [] empty_communicator (Raised TypeError)
  /\ _message_queue (final (_process_received_item (OStandard node_info) faulty_alone))
     = [OStandard node_info].
Proof. split; vm_compute; reflexivity. Qed.

(** ** The gate of the composite predicate *)

Lemma entry_matches_true (e : entry) (message : pyobj) :
  entry_matches e message = true
  <-> truthy (_match_message (e_reference e) message) = true
      /\ e_predicate e message = Returned true.
Proof.
  unfold entry_matches. rewrite andb_true_iff.
  destruct (e_predicate e message) as [[|]|]; split; intros [H1 H2]; split;
    auto; discriminate.
Qed.

(** A pending future that item processing leaves not pending was finished
    with the message, on behalf of an entry that holds it and accepts the
    message. *)
Lemma completion_needs_match (item message : pyobj) (c : Communicator) (f : nat) :
  out (item_message item c) = Returned (Some message) ->
  heap c !! f = Some FPending ->
  heap (final (_process_received_item item c)) !! f <> Some FPending ->
  heap (final (_process_received_item item c)) !! f = Some (FFinished message)
  /\ exists e, e ∈ _pending_requests c /\ e_future e = f /\ entry_matches e message = true.
Proof.
  intros Hitem Ho Hchanged.
  destruct (process_item_spec item message c Hitem) as (_ & (h' & Hfin & _ & Hh) & _).
  rewrite Hfin in *. simpl in *. rewrite Hh in *.
  destruct (completes message (_pending_requests c) (heap c) f) eqn:Hc; [|congruence].
  split; [reflexivity|]. apply completes_true in Hc as [_ H]. exact H.
Qed.

(** C6, as the code has it: the composite predicate first applies the
    identity test, which no caller's predicate can override: a candidate
    passes when it is an application-specific message with the type tag of
    the reference, or a standard message whose class is the class of the
    reference or a subclass of it ([isinstance]).  A candidate that does not
    pass gets [None] whatever the caller's predicate is, which is not
    consulted; for one that passes, the caller's predicate decides.  A
    pending request is completed by item processing only with a message that
    passes the test of its reference and for which the caller's predicate
    returns true. *)
Theorem composite_predicate_gate (reference candidate : pyobj)
    (predicate : predicate_fn) (c : Communicator) :
  (truthy (_match_message reference candidate) = true <-> same_identity reference candidate)
  /\ (~ same_identity reference candidate ->
      forall predicate', super_predicate reference predicate' candidate c
                         = Run [] c (Returned None))
  /\ (same_identity reference candidate ->
      super_predicate reference predicate candidate c
      = match predicate candidate with
        | Returned b => Run [] c (Returned (Some b))
        | Raised _ => Run [error_in_predicate] c (Returned None)
        end)
  /\ (says_true (super_predicate reference predicate candidate c) = true ->
      same_identity reference candidate /\ predicate candidate = Returned true)
  /\ (forall item f,
        out (item_message item c) = Returned (Some candidate) ->
        (forall e, e ∈ _pending_requests c -> e_future e = f ->
                   e_reference e = reference /\ e_predicate e = predicate) ->
        heap c !! f = Some FPending ->
        heap (final (_process_received_item item c)) !! f <> Some FPending ->
        same_identity reference candidate /\ predicate candidate = Returned true
        /\ heap (final (_process_received_item item c)) !! f = Some (FFinished candidate)).
Proof.
  split; [apply match_message_identity|]. split; [|split; [|split]].
  - intros Hn predicate'. apply super_predicate_gate_closed.
    destruct (truthy (_match_message reference candidate)) eqn:G; [|reflexivity].
    destruct Hn. apply match_message_identity. exact G.
  - intros Hs. apply super_predicate_gate_open. apply match_message_identity. exact Hs.
  - intros Ht.
    change (says_true (call_entry (waiting reference predicate 0) candidate c) = true) in Ht.
    rewrite call_entry_says_true in Ht. apply entry_matches_true in Ht as [G P].
    split; [apply match_message_identity; exact G|exact P].
  - intros item f Hitem Hown Ho Hchanged.
    destruct (completion_needs_match item candidate c f Hitem Ho Hchanged)
      as (Hfin & e & Hin & Hf & Hm).
    destruct (Hown e Hin Hf) as [Hr Hp]. apply entry_matches_true in Hm as [G P].
    rewrite Hr in G. rewrite Hp in P.
    split; [apply match_message_identity; exact G|]. split; [exact P|exact Hfin].
Qed.

Lemma node_info_not_base :
  ~ same_identity_exact (OType StandardMessageBase) (OStandard node_info).
Proof.
  intros [(m & t & H & _)|(s & H & Hc)]; [discriminate|].
  injection H as <-. discriminate.
Qed.

(** C6, refuted as stated: a request sent with the base class of the
    standard messages is completed by a node info message, whose class is
    not that class but a subclass of it. *)
Lemma subclass_instance_passes_gate :
  truthy (_match_message (OType StandardMessageBase) (OStandard node_info)) = true
  /\ ~ same_identity_exact (OType StandardMessageBase) (OStandard node_info)
  /\ _pending_requests two_waiting !! 1 = Some (waiting (OType StandardMessageBase) always 1)
  /\ heap (final (_process_received_item (OStandard node_info) two_waiting)) !! 1
     = Some (FFinished (OStandard node_info)).
Proof.
  split; [reflexivity|]. split; [exact node_info_not_base|]. split; reflexivity.
Qed.

(** Where the reference is an instance or a class without subclasses in
    play, the test is the exact one: an instance matches its own class. *)
Example same_class_passes_gate :
  _match_message (OStandard node_info) (OStandard node_info) = Some true
  /\ _match_message (OMessage general_status) (OMessage general_status) = Some true
  /\ _match_message (OType (TStandard ["RegisterData"])) (OStandard node_info) = Some false.
Proof. repeat split. Qed.

(** ** The IO worker loop *)

Lemma turn_error (it : iteration) (c : nat) (w : list worker_effect) (e : exn) :
  is_open it = true ->
  receive_and_route it = (w, Raised e) ->
  e <> ChannelClosedException ->
  turn it c
  = if IO_WORKER_ERROR_LIMIT <? S c then
      ((w ++ [WLog ERROR "Unhandled exception in IO worker thread"])
         ++ [WLog ERROR "Too many errors, stopping!"], Break TooManyErrors)
    else (w ++ [WLog ERROR "Unhandled exception in IO worker thread"], Continue (S c)).
Proof.
  intros Ho Hr Hne. unfold turn. rewrite Ho, Hr.
  destruct e; try reflexivity. destruct Hne. reflexivity.
Qed.

Lemma turn_success (it : iteration) (c : nat) (w : list worker_effect) :
  is_open it = true ->
  receive_and_route it = (w, Returned tt) ->
  turn it c = (w, Continue 0).
Proof. intros Ho Hr. unfold turn. rewrite Ho, Hr. reflexivity. Qed.

Lemma turn_closed (it : iteration) (c : nat) (w : list worker_effect) :
  is_open it = true ->
  receive_and_route it = (w, Raised ChannelClosedException) ->
  turn it c
  = (w ++ [WLog INFO "Stopping the IO worker thread because the channel is closed. Error: %r"],
     Break ChannelClosed).
Proof. intros Ho Hr. unfold turn. rewrite Ho, Hr. reflexivity. Qed.

Lemma turn_not_open (it : iteration) (c : nat) :
  is_open it = false -> turn it c = ([], Break NotOpen).
Proof. intros Ho. unfold turn. rewrite Ho. reflexivity. Qed.

(** Errors in a row: the counter goes up by one each, until it passes the
    limit. *)
Lemma loop_errors (its : list iteration) :
  forall c, c <= IO_WORKER_ERROR_LIMIT ->
            Forall fails its ->
            snd (loop its c)
            = if IO_WORKER_ERROR_LIMIT <? c + length its then Break TooManyErrors
              else Continue (c + length its).
Proof.
  induction its as [|it rest IH]; intros c Hc Hf.
  - simpl. rewrite Nat.add_0_r. rewrite (proj2 (Nat.ltb_ge _ _) Hc). reflexivity.
  - apply Forall_cons in Hf as [(Ho & w & e & Hr & Hne) Hrest].
    simpl loop. rewrite (turn_error it c w e Ho Hr Hne).
    destruct (IO_WORKER_ERROR_LIMIT <? S c) eqn:E.
    + simpl. apply Nat.ltb_lt in E.
      rewrite (proj2 (Nat.ltb_lt _ _)) by (simpl; lia). reflexivity.
    + apply Nat.ltb_ge in E. simpl snd. rewrite (IH (S c) E Hrest).
      simpl length. replace (c + S (length rest)) with (S c + length rest) by lia.
      reflexivity.
Qed.

Lemma last_two {A} (l : list A) (a b : A) : last (l ++ [a; b]) = Some b.
Proof. change [a; b] with ([a] ++ [b]). rewrite app_assoc. apply last_snoc. Qed.

Lemma thread_entry_closes (its : list iteration) (w : list worker_effect)
    (cause : exit_cause) :
  _thread_entry its = (w, Terminated cause) -> ends_closed w = true.
Proof.
  unfold _thread_entry. destruct (loop its 0) as [w0 [c|k]]; intros H; [discriminate|].
  injection H as <- _. unfold ends_closed. rewrite last_two. reflexivity.
Qed.

Lemma thread_entry_terminates (its : list iteration) (cause : exit_cause) :
  snd (loop its 0) = Break cause ->
  snd (_thread_entry its) = Terminated cause
  /\ ends_closed (fst (_thread_entry its)) = true.
Proof.
  intros H. unfold _thread_entry. destruct (loop its 0) as [w0 [c|k]]; [discriminate|].
  simpl in H. injection H as ->. split; [reflexivity|].
  simpl. unfold ends_closed. rewrite last_two. reflexivity.
Qed.

(** C7: in a turn of the loop an exception other than the channel-closed
    signal adds one to the error counter and the loop goes on with the next
    turn, unless the counter is then above [IO_WORKER_ERROR_LIMIT] = 100, in
    which case the loop stops; a turn without exception sets the counter to
    zero; so the loop stops on errors exactly when more than 100 of them
    came in a row.  However the loop ends (the channel found not open, the
    channel-closed signal, too many errors), the thread then closes the
    channel, and that is the last thing it does. *)
Theorem io_worker_loop (it : iteration) (rest : list iteration) (c : nat) :
  IO_WORKER_ERROR_LIMIT = 100
  /\ (forall w e, is_open it = true -> receive_and_route it = (w, Raised e) ->
                  e <> ChannelClosedException -> S c <= IO_WORKER_ERROR_LIMIT ->
                  turn it c = (w ++ [WLog ERROR "Unhandled exception in IO worker thread"],
                               Continue (S c))
                  /\ snd (loop (it :: rest) c) = snd (loop rest (S c)))
  /\ (forall w e, is_open it = true -> receive_and_route it = (w, Raised e) ->
                  e <> ChannelClosedException -> IO_WORKER_ERROR_LIMIT < S c ->
                  snd (loop (it :: rest) c) = Break TooManyErrors)
  /\ (forall w, is_open it = true -> receive_and_route it = (w, Returned tt) ->
                turn it c = (w, Continue 0)
                /\ snd (loop (it :: rest) c) = snd (loop rest 0))
  /\ (forall w, is_open it = true ->
                receive_and_route it = (w, Raised ChannelClosedException) ->
                snd (loop (it :: rest) c) = Break ChannelClosed)
  /\ (is_open it = false -> snd (loop (it :: rest) c) = Break NotOpen)
  /\ (c <= IO_WORKER_ERROR_LIMIT -> Forall fails rest ->
      snd (loop rest c)
      = if IO_WORKER_ERROR_LIMIT <? c + length rest then Break TooManyErrors
        else Continue (c + length rest))
  /\ (forall cause, snd (loop rest 0) = Break cause ->
                    snd (_thread_entry rest) = Terminated cause
                    /\ ends_closed (fst (_thread_entry rest)) = true)
  /\ (forall w cause, _thread_entry rest = (w, Terminated cause) -> ends_closed w = true).
Proof.
  split; [reflexivity|]. repeat apply conj.
  - intros w e Ho Hr Hne Hc.
    assert (Ht : turn it c
                 = (w ++ [WLog ERROR "Unhandled exception in IO worker thread"], Continue (S c))).
    { rewrite (turn_error it c w e Ho Hr Hne).
      rewrite (proj2 (Nat.ltb_ge _ _) Hc). reflexivity. }
    split; [exact Ht|]. simpl loop. rewrite Ht. reflexivity.
  - intros w e Ho Hr Hne Hc. simpl loop. rewrite (turn_error it c w e Ho Hr Hne).
    rewrite (proj2 (Nat.ltb_lt _ _) Hc). reflexivity.
  - intros w Ho Hr. split; [apply turn_success; assumption|].
    simpl loop. rewrite (turn_success it c w Ho Hr). reflexivity.
  - intros w Ho Hr. simpl loop. rewrite (turn_closed it c w Ho Hr). reflexivity.
  - intros Ho. simpl loop. rewrite (turn_not_open it c Ho). reflexivity.
  - apply loop_errors.
  - apply thread_entry_terminates.
  - apply thread_entry_closes.
Qed.

(** A hundred errors in a row leave the thread running, the next one stops
    it; a turn without error in between starts the count again; the
    channel-closed signal and a channel that is not open stop it at once. *)
Example hundred_errors : snd (_thread_entry (repeat failing_turn 100)) = Running 100.
Proof. vm_compute. reflexivity. Qed.

Example hundred_and_one_errors :
  snd (_thread_entry (repeat failing_turn 101)) = Terminated TooManyErrors
  /\ ends_closed (fst (_thread_entry (repeat failing_turn 101))) = true.
Proof. split; vm_compute; reflexivity. Qed.

Example success_resets_counter :
  snd (_thread_entry (repeat failing_turn 100 ++ log_turn :: repeat failing_turn 100))
  = Running 100.
Proof. vm_compute. reflexivity. Qed.

Example closed_signal_stops :
  _thread_entry (log_turn :: closed_turn :: repeat failing_turn 3)
  = ([WLog DEBUG "Received log string: %r"; WCallSoon (LogQueuePut [x68; x69]);
      WLog INFO "Stopping the IO worker thread because the channel is closed. Error: %r";
      WLog INFO "IO worker thread is stopping"; WClose],
     Terminated ChannelClosed).
Proof. vm_compute. reflexivity. Qed.

Example not_open_stops :
  _thread_entry [down_turn] = ([WLog INFO "IO worker thread is stopping"; WClose],
                               Terminated NotOpen).
Proof. vm_compute. reflexivity. Qed.

(** ** Requests on the event loop *)

Lemma has_entry_app (f : nat) (l1 l2 : list entry) :
  has_entry f (l1 ++ l2) = has_entry f l1 || has_entry f l2.
Proof. apply existsb_app. Qed.


Lemma has_entry_well_formed (c : Communicator) (f : nat) :
  well_formed c -> length (heap c) <= f -> has_entry f (_pending_requests c) = false.
Proof.
  unfold well_formed. intros Hwf Hf. induction Hwf as [|x l Hx _ IH]; [reflexivity|].
  simpl. rewrite IH. destruct (Nat.eqb_spec (e_future x) f); [lia|reflexivity].
Qed.

Lemma pending_remove_run (e : entry) (c : Communicator) :
  pending_remove e c
  = if has_entry (e_future e) (_pending_requests c) then
      Run [PendingRemove (e_future e)]
          (with_pending (without (e_future e) (_pending_requests c)) c) (Returned tt)
    else Run [] c (Raised KeyError).
Proof.
  unfold pending_remove. rewrite (bind_returned get _ c c [] c) by reflexivity.
  destruct (has_entry (e_future e) (_pending_requests c)); reflexivity.
Qed.

Lemma send_run (message : pyobj) (c : Communicator) :
  final (send message c) = c
  /\ Forall (fun x => is_transport_io x = true) (effects (send message c)).
Proof.
  unfold send, _do_send.
  destruct message as [m| |s|t| | | |]; try (split; [reflexivity|repeat constructor]).
  unfold bind, get, raise, lift_outcome, send_application_specific, emit, ret. simpl.
  destruct (_codec c) as [codec|]; simpl; [|split; [reflexivity|constructor]].
  destruct (encode codec m) as [[code data]|]; simpl; split;
    try reflexivity; repeat constructor.
Qed.

Lemma run_is {A} (r : run A) (a : A) :
  out r = Returned a -> r = Run (effects r) (final r) (Returned a).
Proof. destruct r; simpl; intros ->; reflexivity. Qed.

Lemma without_none (g : nat) (l : list entry) :
  has_entry g l = false -> without g l = l.
Proof.
  induction l as [|x l IH]; intros H; [reflexivity|].
  simpl in *. apply orb_false_iff in H as [Hx Hl].
  rewrite Hx. simpl. rewrite IH by exact Hl. reflexivity.
Qed.

Lemma without_app (g : nat) (l1 l2 : list entry) :
  without g (l1 ++ l2) = without g l1 ++ without g l2.
Proof. apply List.filter_app. Qed.

(** The second half of [request], in full: it creates a future, puts its
    entry into the set, fails at the call of [asyncio.wait_for], takes the
    entry out again and raises; the future stays behind, pending. *)
Lemma await_response_run (message_or_type : pyobj) (timeout : Z)
    (predicate : option predicate_fn) (c : Communicator) :
  await_response message_or_type timeout predicate c
  = Run ((if has_entry (length (heap c)) (_pending_requests c) then []
          else [PendingAdd (length (heap c))])
           ++ [PendingRemove (length (heap c))])
        (with_pending (without (length (heap c)) (_pending_requests c))
                      (with_heap (heap c ++ [FPending]) c))
        (Raised TypeError).
Proof.
  unfold await_response. cbv zeta.
  rewrite (bind_returned new_future _ c (with_heap (heap c ++ [FPending]) c) []
             (length (heap c))) by reflexivity.
  cbn [effects final out app].
  unfold try_finally, try_except, pending_add, wait_for.
  set (e := {| e_reference := message_or_type;
               e_predicate := default (fun _ => Returned true) predicate;
               e_future := length (heap c) |}).
  set (c1 := with_heap (heap c ++ [FPending]) c).
  destruct (has_entry (length (heap c)) (_pending_requests c)) eqn:H.
  - assert (Hb : (pending_add e ;; v <- @raise pyobj TypeError ;; ret (Some v)) c1
                 = Run [] c1 (Raised TypeError)).
    { unfold pending_add, bind, get, raise. simpl. rewrite H. reflexivity. }
    unfold pending_add in Hb. rewrite Hb. cbn [effects final out app].
    rewrite pending_remove_run. simpl. rewrite H. reflexivity.
  - assert (Hb : (pending_add e ;; v <- @raise pyobj TypeError ;; ret (Some v)) c1
                 = Run [PendingAdd (length (heap c))]
                       (with_pending (_pending_requests c ++ [e]) c1) (Raised TypeError)).
    { unfold pending_add, bind, get, raise, modify, emit. simpl. rewrite H. reflexivity. }
    unfold pending_add in Hb. rewrite Hb. cbn [effects final out app].
    rewrite pending_remove_run. simpl.
    rewrite has_entry_app. simpl. rewrite Nat.eqb_refl, orb_true_r. simpl.
    rewrite without_app. simpl. rewrite Nat.eqb_refl. simpl. rewrite app_nil_r.
    reflexivity.
Qed.

(** A call of [request]: it writes to the channel at most, and raises. *)
Lemma request_run (message_or_type : pyobj) (timeout : Z)
    (predicate : option predicate_fn) (c : Communicator) :
  final (request message_or_type timeout predicate c) = c
  /\ Forall (fun x => is_transport_io x = true)
            (effects (request message_or_type timeout predicate c))
  /\ exists e, out (request message_or_type timeout predicate c) = Raised e.
Proof.
  unfold request. destruct (timeout <=? 0)%Z.
  - split; [reflexivity|]. split; [constructor|]. exists ValueError. reflexivity.
  - destruct (send_run message_or_type c) as [Hf Ha].
    assert (Hraise : exists e, out (_do_send message_or_type c) = Raised e)
      by (unfold _do_send; apply then_raise).
    destruct Hraise as [e He].
    unfold send in *. unfold bind. rewrite He. simpl. split; [exact Hf|].
    split; [exact Ha|]. exists e. reflexivity.
Qed.

(** [request] sends first, so it never gets as far as registering an entry. *)
Lemma request_never_returns (message_or_type : pyobj) (timeout : Z)
    (predicate : option predicate_fn) (c : Communicator) :
  exists e, out (request message_or_type timeout predicate c) = Raised e
            /\ _pending_requests (final (request message_or_type timeout predicate c))
               = _pending_requests c.
Proof.
  destruct (request_run message_or_type timeout predicate c) as (Hf & _ & e & He).
  exists e. rewrite Hf. auto.
Qed.

(** * Further properties of the communicator *)

(** ** The guards of [request] and of the send path *)

(** X1: a timeout that is not positive makes [request] raise [ValueError]
    before anything else happens: nothing is sent, no future is created, no
    entry is registered. *)
Theorem request_rejects_nonpositive_timeout (message_or_type : pyobj) (timeout : Z)
    (predicate : option predicate_fn) (c : Communicator) :
  (timeout <= 0)%Z ->
  request message_or_type timeout predicate c = Run [] c (Raised ValueError).
Proof.
  intros H. unfold request. rewrite (proj2 (Z.leb_le _ _) H). reflexivity.
Qed.

Lemma request_rejects_nonpositive_timeout_witness :
  request (OStandard node_info) 0 None two_waiting = Run [] two_waiting (Raised ValueError).
Proof.
  apply (request_rejects_nonpositive_timeout (OStandard node_info) 0 None two_waiting).
  lia.
Defined.

(** X2: when the bound codec cannot encode an application-specific message,
    its exception is what [send] raises; nothing is handed to the channel
    and the communicator is as it was. *)
Theorem send_encode_failure_sends_nothing (m : Message) (codec : Codec) (ex : exn)
    (c : Communicator) :
  _codec c = Some codec ->
  encode codec m = Raised ex ->
  send (OMessage m) c = Run [] c (Raised ex).
Proof.
  intros Hc He. unfold send, _do_send, bind, get. simpl.
  rewrite Hc. simpl. rewrite He. reflexivity.
Qed.

Lemma send_encode_failure_sends_nothing_witness :
  send (OMessage setpoint) answered_entry
  = Run [] answered_entry (Raised (OtherError "ValueError")).
Proof.
  apply (send_encode_failure_sends_nothing setpoint status_codec (OtherError "ValueError")
           answered_entry); reflexivity.
Defined.

(** X3: whatever it is given, [send] leaves the dispatch core as it was, and
    all it does is at most one write to the channel; for an object that is
    neither a message nor a class it writes nothing and raises
    [TypeError]. *)
Theorem send_touches_only_the_channel (message : pyobj) (c : Communicator) :
  final (send message c) = c
  /\ Forall (fun x => is_transport_io x = true) (effects (send message c))
  /\ length (effects (send message c)) <= 1
  /\ (is_Message message = false -> is_StandardMessageBase message = false ->
      is_type message = false ->
      send message c = Run [] c (Raised TypeError)).
Proof.
  destruct (send_run message c) as [Hf Ha]. split; [exact Hf|]. split; [exact Ha|].
  split.
  - unfold send, _do_send.
    destruct message as [m| |s|t| | | |]; simpl; try lia.
    unfold bind, get, raise, lift_outcome, send_application_specific, emit, ret. simpl.
    destruct (_codec c) as [codec|]; simpl; [|lia].
    destruct (encode codec m) as [[code data]|]; simpl; lia.
  - intros H1 H2 H3. destruct message; try discriminate; reflexivity.
Qed.

(** ** What the identity test looks at *)

Lemma issubclass_refl (t : pytype) : issubclass t t = true.
Proof.
  destruct t; simpl; try reflexivity; apply bool_decide_eq_true_2; reflexivity.
Qed.

(** X4: the identity test looks at the type tag of an application-specific
    message and at the class of a standard message, and at nothing else: an
    instance given as the reference counts as its type tag or its class,
    messages that differ in their field values only are told apart neither
    as references nor as candidates, and every message passes the test
    against itself. *)
Theorem match_message_ignores_fields (reference candidate : pyobj) (t : MessageType)
    (k : list string) (fs fs' : list (string * Z)) :
  let m := {| type := t; fields := fs |} in
  let m' := {| type := t; fields := fs' |} in
  let s := {| std_class := k; std_fields := fs |} in
  let s' := {| std_class := k; std_fields := fs' |} in
  _match_message (OMessage m) candidate = _match_message (OMessageType t) candidate
  /\ _match_message (OStandard s) candidate = _match_message (OType (TStandard k)) candidate
  /\ _match_message (OMessage m) candidate = _match_message (OMessage m') candidate
  /\ _match_message (OStandard s) candidate = _match_message (OStandard s') candidate
  /\ _match_message reference (OMessage m) = _match_message reference (OMessage m')
  /\ _match_message reference (OStandard s) = _match_message reference (OStandard s')
  /\ _match_message (OMessage m) (OMessage m') = Some true
  /\ _match_message (OStandard s) (OStandard s') = Some true.
Proof.
  intros m m' s s'.
  split; [reflexivity|]. split; [reflexivity|]. split; [reflexivity|].
  split; [reflexivity|].
  split; [unfold _match_message; destruct (eliminate_prototype reference); reflexivity|].
  split; [unfold _match_message; destruct (eliminate_prototype reference); reflexivity|].
  split; unfold _match_message; simpl.
  - rewrite bool_decide_eq_true_2; reflexivity.
  - rewrite bool_decide_eq_true_2; reflexivity.
Qed.

(** ** The message queue on the consumer side *)

Lemma receive_n_app (q1 : list pyobj) :
  forall (q2 : list pyobj) (c : Communicator),
    _message_queue c = q1 ++ q2 ->
    receive_n (length q1) c = Some (q1, with_queue q2 c).
Proof.
  induction q1 as [|m q1 IH]; intros q2 c Hq.
  - simpl in *. rewrite <- Hq. destruct c; reflexivity.
  - simpl. unfold receive. rewrite Hq. simpl.
    rewrite (IH q2 (with_queue (q1 ++ q2) c)) by reflexivity. reflexivity.
Qed.

Lemma receive_n_short (n : nat) :
  forall c, length (_message_queue c) < n -> receive_n n c = None.
Proof.
  induction n as [|n IH]; intros c H; [lia|].
  simpl. unfold receive. destruct (_message_queue c) as [|m q] eqn:Hq; [reflexivity|].
  rewrite IH; [reflexivity|]. simpl in *. lia.
Qed.

(** [receive] hands out the queued messages oldest first: as many calls as
    there are messages return them in the order of the queue and leave it
    empty, and the next call finds nothing and stays suspended. *)
Lemma receive_is_fifo (c : Communicator) :
  receive_n (length (_message_queue c)) c = Some (_message_queue c, with_queue [] c)
  /\ receive_n (S (length (_message_queue c))) c = None.
Proof.
  split.
  - apply receive_n_app. rewrite app_nil_r. reflexivity.
  - apply receive_n_short. lia.
Qed.

(** ** Runs of events *)

Lemma step_returns (ev : event) (c : Communicator) : out (step ev c) = Returned tt.
Proof. destruct ev; reflexivity. Qed.

Lemma run_events_cons (ev : event) (rest : list event) (c : Communicator) :
  run_events (ev :: rest) c
  = Run (effects (step ev c) ++ effects (run_events rest (final (step ev c))))
        (final (run_events rest (final (step ev c))))
        (out (run_events rest (final (step ev c)))).
Proof.
  simpl run_events.
  apply (bind_returned (step ev) (fun _ => run_events rest) c (final (step ev c))
           (effects (step ev c)) tt).
  apply run_is. apply step_returns.
Qed.

Lemma run_events_returns (evs : list event) :
  forall c, out (run_events evs c) = Returned tt.
Proof.
  induction evs as [|ev rest IH]; intros c; [reflexivity|].
  rewrite run_events_cons. simpl. apply IH.
Qed.

(** ** Futures that are done *)

Lemma has_entry_no_completion (message : pyobj) (l : list entry) (h : list Future)
    (f : nat) :
  has_entry f l = false -> completes message l h f = false.
Proof.
  intros H. unfold completes. destruct (slot_open h f); [|reflexivity]. simpl.
  induction l as [|x l IH]; [reflexivity|].
  simpl in *. apply orb_false_iff in H as [Hx Hl]. rewrite Hx, IH by exact Hl. reflexivity.
Qed.

(** What item processing does to the future at [f]. *)
Lemma process_item_future (f : nat) (item : pyobj) (c : Communicator) :
  let r := _process_received_item item c in
  count (is_set_result f) (effects r) <= (if slot_open (heap c) f then 1 else 0)
  /\ (count (is_set_result f) (effects r) = 1 ->
      exists v, heap (final r) !! f = Some (FFinished v))
  /\ (slot_open (heap c) f = false -> heap (final r) !! f = heap c !! f)
  /\ (has_entry f (_pending_requests c) = false ->
      heap (final r) !! f = heap c !! f /\ count (is_set_result f) (effects r) = 0)
  /\ count (is_pending_add f) (effects r) = 0
  /\ count (is_pending_remove f) (effects r) = 0.
Proof.
  intros r. subst r.
  destruct (item_message_cases item c)
    as [(m & Hr & _)|[(t & g & _ & Hr & _)|(Hr & _)]].
  - assert (H : out (item_message item c) = Returned (Some m)) by (rewrite Hr; reflexivity).
    destruct (process_item_spec item m c H) as (_ & (h' & Hfin & Hlen & Hh) & Hcnt & Hall).
    rewrite Hfin. simpl. rewrite Hcnt, Hh.
    assert (Hc : completes m (_pending_requests c) (heap c) f = true ->
                 slot_open (heap c) f = true).
    { unfold completes. intros Hc. apply andb_true_iff in Hc as [Hc _]. exact Hc. }
    assert (Hn : slot_open (heap c) f = false ->
                 completes m (_pending_requests c) (heap c) f = false).
    { unfold completes. intros ->. reflexivity. }
    repeat apply conj.
    + destruct (completes m (_pending_requests c) (heap c) f);
        [rewrite (Hc eq_refl); lia|lia].
    + destruct (completes m (_pending_requests c) (heap c) f); [eauto|discriminate].
    + intros Ho. rewrite (Hn Ho). reflexivity.
    + intros Hno. rewrite (has_entry_no_completion m _ _ f Hno). auto.
    + eapply count_none; [|exact Hall]. intros [] Hx; try discriminate; reflexivity.
    + eapply count_none; [|exact Hall]. intros [] Hx; try discriminate; reflexivity.
  - rewrite (process_item_dropped item t c Hr). simpl.
    repeat apply conj; auto; try lia; try discriminate.
    destruct (slot_open (heap c) f); unfold count; simpl; lia.
  - rewrite (process_item_type_error item c Hr). simpl.
    repeat apply conj; auto; try lia; try discriminate.
    destruct (slot_open (heap c) f); unfold count; simpl; lia.
Qed.

Lemma step_keeps_done (ev : event) (c : Communicator) (f : nat) (x : Future) :
  heap c !! f = Some x -> x <> FPending ->
  heap (final (step ev c)) !! f = Some x.
Proof.
  intros Hl Hx.
  assert (Hlt : f < length (heap c)) by (eapply lookup_lt_Some; exact Hl).
  assert (Hd : slot_open (heap c) f = false).
  { unfold slot_open, future_done. rewrite Hl. destruct x; [destruct Hx|..]; reflexivity. }
  destruct ev as [item|message|codec|m t p|m t p]; cbn [step]; unfold contained; cbn [final].
  - destruct (process_item_future f item c) as (_ & _ & Hst & _).
    rewrite (Hst Hd). exact Hl.
  - destruct (send_run message c) as [Hs _]. rewrite Hs. exact Hl.
  - exact Hl.
  - destruct (request_run m t p c) as [Hs _]. rewrite Hs. exact Hl.
  - rewrite await_response_run. simpl. rewrite lookup_app_l by exact Hlt. exact Hl.
Qed.

(** A run of events leaves a future that is done as it is. *)
Lemma run_keeps_done (evs : list event) (c : Communicator) (f : nat)
    (x : Future) :
  heap c !! f = Some x -> x <> FPending ->
  heap (final (run_events evs c)) !! f = Some x.
Proof.
  revert c. induction evs as [|ev rest IH]; intros c Hl Hx; [exact Hl|].
  rewrite run_events_cons. simpl final. apply IH; [|exact Hx].
  apply step_keeps_done; assumption.
Qed.

(** X5: a future that is done stays as it is: once it holds a result, or is
    cancelled, nothing that runs on the event loop changes it, neither
    further matching messages nor calls of [send] or of [request]. *)
Theorem done_future_is_final (evs : list event) (c : Communicator) (f : nat)
    (x : Future) :
  heap c !! f = Some x -> x <> FPending ->
  heap (final (run_events evs c)) !! f = Some x.
Proof. apply run_keeps_done. Qed.

Lemma done_future_is_final_witness :
  heap (final (run_events [EvItem (OStandard node_info);
                           EvAwaitResponse (OStandard node_info) 1 None;
                           EvRequest (OStandard node_info) 1 None;
                           EvItem (OStandard node_info)]
                 answered_entry)) !! 0
  = Some (FFinished (OStandard node_info)).
Proof.
  apply (done_future_is_final
           [EvItem (OStandard node_info);
            EvAwaitResponse (OStandard node_info) 1 None;
            EvRequest (OStandard node_info) 1 None;
            EvItem (OStandard node_info)]
           answered_entry 0 (FFinished (OStandard node_info))).
  - reflexivity.
  - discriminate.
Defined.

(** ** Invariants of the pending set *)

Lemma without_sublist (g : nat) (l : list entry) :
  Forall (fun e => e ∈ l) (without g l).
Proof.
  unfold without. apply Forall_forall. intros e He.
  apply list_elem_of_In, filter_In in He as [He _]. apply list_elem_of_In. exact He.
Qed.

Lemma without_distinct (g : nat) (l : list entry) :
  NoDup (map e_future l) -> NoDup (map e_future (without g l)).
Proof.
  induction l as [|x l IH]; intros H; [constructor|].
  simpl in *. apply NoDup_cons in H as [Hx Hl].
  destruct (negb (Nat.eqb (e_future x) g)); [|apply IH; exact Hl].
  simpl. apply NoDup_cons. split; [|apply IH; exact Hl].
  intros Hin. apply Hx. apply list_elem_of_fmap in Hin as (y & Hy & Hin).
  apply list_elem_of_fmap. exists y. split; [exact Hy|].
  apply list_elem_of_In in Hin. apply list_elem_of_In.
  unfold without in Hin. apply filter_In in Hin as [Hin _]. exact Hin.
Qed.

Lemma step_keeps_invariant (ev : event) (c : Communicator) :
  well_formed c -> entries_distinct c ->
  well_formed (final (step ev c)) /\ entries_distinct (final (step ev c))
  /\ length (heap c) <= length (heap (final (step ev c))).
Proof.
  unfold well_formed, entries_distinct. intros Hwf Hd.
  destruct ev as [item|message|codec|m t p|m t p]; cbn [step]; unfold contained; cbn [final].
  - destruct (process_item_keeps_link item c) as (_ & _ & Hp & _ & Hlen).
    rewrite Hp, Hlen. auto.
  - destruct (send_run message c) as [Hf _]. rewrite Hf. auto.
  - auto.
  - destruct (request_run m t p c) as [Hf _]. rewrite Hf. auto.
  - rewrite await_response_run. simpl. rewrite length_app. simpl.
    split; [|split; [|lia]].
    + apply Forall_forall. intros x Hx.
      pose proof (without_sublist (length (heap c)) (_pending_requests c)) as Hs.
      rewrite Forall_forall in Hs, Hwf. specialize (Hwf x (Hs x Hx)). lia.
    + apply without_distinct. exact Hd.
Qed.

(** X6: the pending set stays in order under everything that runs on the
    event loop: the futures of its entries are futures of the heap, no two
    entries hold the same future, and the heap of futures only grows. *)
Theorem pending_set_invariant (evs : list event) (c : Communicator) :
  well_formed c -> entries_distinct c ->
  well_formed (final (run_events evs c))
  /\ entries_distinct (final (run_events evs c))
  /\ length (heap c) <= length (heap (final (run_events evs c))).
Proof.
  revert c. induction evs as [|ev rest IH]; intros c Hwf Hd; [auto|].
  rewrite run_events_cons. simpl final.
  destruct (step_keeps_invariant ev c Hwf Hd) as (Hwf' & Hd' & Hlen).
  destruct (IH (final (step ev c)) Hwf' Hd') as (H1 & H2 & H3).
  split; [exact H1|]. split; [exact H2|lia].
Qed.

Lemma pending_set_invariant_witness :
  let evs := [EvAwaitResponse (OStandard node_info) 1 None; EvItem (OStandard node_info);
              EvRequest (OMessage general_status) 1 (Some faulty);
              EvAwaitResponse (OMessage general_status) 1 (Some faulty)] in
  well_formed (final (run_events evs two_waiting))
  /\ entries_distinct (final (run_events evs two_waiting))
  /\ length (heap two_waiting) <= length (heap (final (run_events evs two_waiting))).
Proof.
  apply (pending_set_invariant
           [EvAwaitResponse (OStandard node_info) 1 None; EvItem (OStandard node_info);
            EvRequest (OMessage general_status) 1 (Some faulty);
            EvAwaitResponse (OMessage general_status) 1 (Some faulty)] two_waiting).
  - unfold well_formed. simpl. repeat constructor.
  - unfold entries_distinct. simpl. apply (bool_decide_unpack _). reflexivity.
Defined.

(** ** The message queue under dispatch *)

Lemma step_appends (ev : event) (c : Communicator) :
  exists more, _message_queue (final (step ev c)) = _message_queue c ++ more.
Proof.
  destruct ev as [item|message|codec|m t p|m t p]; cbn [step]; unfold contained; cbn [final].
  - destruct (item_message_cases item c)
      as [(msg & Hr & _)|[(t & g & _ & Hr & _)|(Hr & _)]].
    + assert (H : out (item_message item c) = Returned (Some msg)) by (rewrite Hr; reflexivity).
      destruct (process_item_spec item msg c H) as (_ & (h' & Hfin & _) & _).
      rewrite Hfin. simpl. destruct (any_match msg c).
      * exists []. rewrite app_nil_r. reflexivity.
      * exists [msg]. reflexivity.
    + rewrite (process_item_dropped item t c Hr). exists []. simpl.
      rewrite app_nil_r. reflexivity.
    + rewrite (process_item_type_error item c Hr). exists []. simpl.
      rewrite app_nil_r. reflexivity.
  - destruct (send_run message c) as [Hf _]. rewrite Hf. exists [].
    rewrite app_nil_r. reflexivity.
  - exists []. simpl. rewrite app_nil_r. reflexivity.
  - destruct (request_run m t p c) as [Hf _]. rewrite Hf. exists [].
    rewrite app_nil_r. reflexivity.
  - rewrite await_response_run. exists []. simpl. rewrite app_nil_r. reflexivity.
Qed.

(** X7: the dispatch core only ever appends to the message queue: whatever
    runs on the event loop, the messages that were queued before are still
    there afterwards, at the head of the queue and in the same order. *)
Theorem message_queue_is_append_only (evs : list event) (c : Communicator) :
  exists more, _message_queue (final (run_events evs c)) = _message_queue c ++ more.
Proof.
  revert c. induction evs as [|ev rest IH]; intros c.
  - exists []. simpl. rewrite app_nil_r. reflexivity.
  - rewrite run_events_cons. simpl final.
    destruct (step_appends ev c) as [m1 H1].
    destruct (IH (final (step ev c))) as [m2 H2].
    exists (m1 ++ m2). rewrite H2, H1, app_assoc. reflexivity.
Qed.

Lemma no_open_entry_no_match (message : pyobj) (c : Communicator) :
  Forall (fun e => slot_open (heap c) (e_future e) = false) (_pending_requests c) ->
  any_match message c = false
  /\ forall f, completes message (_pending_requests c) (heap c) f = false.
Proof.
  intros H. split.
  - unfold any_match. induction H as [|e l He _ IH]; [reflexivity|].
    simpl. rewrite He, IH. reflexivity.
  - intros f. unfold completes. destruct (slot_open (heap c) f) eqn:Ho; [|reflexivity].
    simpl. induction H as [|e l He _ IH]; [reflexivity|].
    simpl. rewrite IH, orb_false_r.
    destruct (Nat.eqb_spec (e_future e) f) as [E|E]; [|reflexivity].
    rewrite E in He. congruence.
Qed.

(** An item that yields a message, processed while no entry of the set has
    a pending future. *)
Lemma process_item_unanswered (item message : pyobj) (c : Communicator) :
  Forall (fun e => slot_open (heap c) (e_future e) = false) (_pending_requests c) ->
  out (item_message item c) = Returned (Some message) ->
  final (_process_received_item item c) = with_queue (_message_queue c ++ [message]) c.
Proof.
  intros Hd Hitem. destruct (no_open_entry_no_match message c Hd) as [Hm Hc].
  destruct (process_item_spec item message c Hitem) as (_ & (h' & Hfin & Hlen & Hh) & _).
  rewrite Hfin, Hm.
  assert (h' = heap c) as ->.
  { apply list_eq. intros f. rewrite Hh, Hc. reflexivity. }
  rewrite with_heap_same. reflexivity.
Qed.

(** X8: messages that nobody waits for reach the consumer in the order of
    their arrival.  While no entry of the pending set has a pending future
    (the set is empty, or the futures of its entries are done),
    the messages of the items processed are appended to the queue one after
    the other, nothing else changes, and [receive] then returns the queued
    messages in that order, after which it finds the queue empty. *)
Theorem unanswered_messages_are_received_in_order (items messages : list pyobj)
    (c : Communicator) :
  Forall (fun e => slot_open (heap c) (e_future e) = false) (_pending_requests c) ->
  Forall2 (fun item message => out (item_message item c) = Returned (Some message))
          items messages ->
  let c' := final (run_events (map EvItem items) c) in
  c' = with_queue (_message_queue c ++ messages) c
  /\ receive_n (length (_message_queue c ++ messages)) c'
     = Some (_message_queue c ++ messages, with_queue [] c)
  /\ receive_n (S (length (_message_queue c ++ messages))) c' = None.
Proof.
  intros Hd Hall c'.
  assert (Hc' : c' = with_queue (_message_queue c ++ messages) c).
  { subst c'. revert messages c Hd Hall.
    induction items as [|item items IH]; intros messages c Hd Hall.
    - apply Forall2_nil_inv_l in Hall. subst messages. simpl.
      rewrite app_nil_r. destruct c; reflexivity.
    - apply Forall2_cons_inv_l in Hall as (message & rest & Hitem & Hrest & ->).
      simpl map. rewrite run_events_cons. cbn [final step]. unfold contained. cbn [final].
      rewrite (process_item_unanswered item message c Hd Hitem).
      rewrite (IH rest).
      + simpl. rewrite <- app_assoc. reflexivity.
      + exact Hd.
      + eapply Forall2_impl; [exact Hrest|]. intros it msg H.
        rewrite (item_message_codec it c) by reflexivity. exact H. }
  split; [exact Hc'|].
  destruct (receive_is_fifo c') as [H1 H2]. rewrite Hc' in H1, H2 |- *.
  simpl in H1, H2. split; [exact H1|exact H2].
Qed.

Lemma unanswered_messages_are_received_in_order_witness :
  let items := [OStandard node_info; OFrame {| frame_type_code := 0; payload := [] |}] in
  let messages := [OStandard node_info; OMessage bare_status] in
  let c' := final (run_events (map EvItem items) answered_entry) in
  c' = with_queue (_message_queue answered_entry ++ messages) answered_entry
  /\ receive_n (length (_message_queue answered_entry ++ messages)) c'
     = Some (_message_queue answered_entry ++ messages,
             with_queue [] answered_entry)
  /\ receive_n (S (length (_message_queue answered_entry ++ messages))) c' = None.
Proof.
  apply (unanswered_messages_are_received_in_order
           [OStandard node_info; OFrame {| frame_type_code := 0; payload := [] |}]
           [OStandard node_info; OMessage bare_status] answered_entry).
  - repeat constructor.
  - repeat constructor.
Defined.

(** ** The IO worker: counter, closing and hand-over *)

Lemma closes_app (w1 w2 : list worker_effect) : closes (w1 ++ w2) = closes w1 + closes w2.
Proof. unfold closes. rewrite List.filter_app, length_app. reflexivity. Qed.

Lemma scheduled_callbacks_app (w1 w2 : list worker_effect) :
  scheduled_callbacks (w1 ++ w2) = scheduled_callbacks w1 ++ scheduled_callbacks w2.
Proof. apply omap_app. Qed.

(** What the body of the [try] leaves in the trace. *)
Lemma receive_and_route_trace (it : iteration) :
  closes (fst (receive_and_route it)) = 0
  /\ scheduled_callbacks (fst (receive_and_route it))
     = match snd (receive_and_route it) with
       | Returned _ => option_list (turn_callback it)
       | Raised _ => []
       end
  /\ (forall e, snd (receive_and_route it) = Raised e -> turn_callback it = None).
Proof.
  unfold receive_and_route, turn_callback.
  destruct (received it) as [[]|e]; destruct (scheduled it) as [[]|e'];
    simpl; repeat split; try reflexivity; intros; discriminate.
Qed.

Lemma turn_trace (it : iteration) (c : nat) :
  c <= IO_WORKER_ERROR_LIMIT ->
  closes (fst (turn it c)) = 0
  /\ match snd (turn it c) with
     | Continue c' =>
         c' <= IO_WORKER_ERROR_LIMIT
         /\ scheduled_callbacks (fst (turn it c)) = option_list (turn_callback it)
     | Break _ => scheduled_callbacks (fst (turn it c)) = []
     end.
Proof.
  intros Hc. unfold turn. destruct (is_open it); [|split; reflexivity].
  destruct (receive_and_route_trace it) as (Hcl & Hcb & Hnone).
  destruct (receive_and_route it) as [w [[]|e]]; simpl in *.
  - split; [exact Hcl|]. split; [lia|exact Hcb].
  - specialize (Hnone e eq_refl).
    destruct e;
      (destruct (Nat.ltb_spec IO_WORKER_ERROR_LIMIT (S c)); cbn [fst snd];
           rewrite ?closes_app, ?scheduled_callbacks_app, Hcl, Hcb, ?Hnone;
           repeat split; try reflexivity; lia).
Qed.

Lemma loop_trace (its : list iteration) :
  forall c, c <= IO_WORKER_ERROR_LIMIT ->
            closes (fst (loop its c)) = 0
            /\ scheduled_callbacks (fst (loop its c)) `prefix_of` omap turn_callback its
            /\ forall c', snd (loop its c) = Continue c' ->
                          c' <= IO_WORKER_ERROR_LIMIT
                          /\ scheduled_callbacks (fst (loop its c)) = omap turn_callback its.
Proof.
  induction its as [|it rest IH]; intros c Hc.
  - simpl. split; [reflexivity|]. split; [reflexivity|].
    intros c' H. injection H as <-. auto.
  - simpl loop. destruct (turn_trace it c Hc) as [Hcl Ht].
    destruct (turn it c) as [w [c1|k]]; simpl in *.
    + destruct Ht as [Hc1 Hcb]. destruct (IH c1 Hc1) as (Hcl' & Hpre & Hrun).
      rewrite closes_app, scheduled_callbacks_app, Hcl, Hcl', Hcb.
      split; [reflexivity|]. split.
      * destruct (turn_callback it); simpl; [apply prefix_cons|]; exact Hpre.
      * intros c' H. destruct (Hrun c' H) as [H1 H2]. split; [exact H1|].
        rewrite H2. destruct (turn_callback it); reflexivity.
    + split; [exact Hcl|]. split; [rewrite Ht; apply prefix_nil|]. intros; discriminate.
Qed.

(** X9: the worker thread closes the channel once, as the last thing it
    does, and never while its loop runs; and as long as the loop runs the
    error counter is at most [IO_WORKER_ERROR_LIMIT]. *)
Theorem worker_closes_once_at_the_end (its : list iteration) :
  match _thread_entry its with
  | (w, Running c) => closes w = 0 /\ c <= IO_WORKER_ERROR_LIMIT
  | (w, Terminated _) => closes w = 1 /\ ends_closed w = true
  end.
Proof.
  unfold _thread_entry.
  destruct (loop_trace its 0) as (Hcl & _ & Hrun); [unfold IO_WORKER_ERROR_LIMIT; lia|].
  destruct (loop its 0) as [w [c|k]]; simpl in *.
  - split; [exact Hcl|]. apply (Hrun c eq_refl).
  - rewrite closes_app, Hcl. split; [reflexivity|].
    unfold ends_closed. rewrite last_two. reflexivity.
Qed.

(** X10: while the thread runs, what it has handed over to the event loop
    is, in the order of the turns, one call per turn that received bytes
    (the log queue) or an item (item processing) and got it scheduled;
    turns that received nothing or raised hand over nothing.  Whether it
    runs or has stopped, it has handed over nothing else: the calls are an
    initial part of that list. *)
Theorem worker_hands_over_in_order (its : list iteration) :
  scheduled_callbacks (fst (_thread_entry its)) `prefix_of` omap turn_callback its
  /\ (forall c, snd (_thread_entry its) = Running c ->
                scheduled_callbacks (fst (_thread_entry its)) = omap turn_callback its).
Proof.
  unfold _thread_entry.
  destruct (loop_trace its 0) as (_ & Hpre & Hrun); [unfold IO_WORKER_ERROR_LIMIT; lia|].
  destruct (loop its 0) as [w [c|k]]; simpl in *.
  - split; [exact Hpre|]. intros c' _. apply (Hrun c eq_refl).
  - rewrite scheduled_callbacks_app. simpl. rewrite app_nil_r.
    split; [exact Hpre|]. intros; discriminate.
Qed.

(** ** Requests *)





(** The second half of [request] from a state whose entries hold futures
    of the heap. *)
Lemma await_response_well_formed (message_or_type : pyobj) (timeout : Z)
    (predicate : option predicate_fn) (c : Communicator) :
  well_formed c ->
  await_response message_or_type timeout predicate c
  = Run [PendingAdd (length (heap c)); PendingRemove (length (heap c))]
        (with_heap (heap c ++ [FPending]) c) (Raised TypeError).
Proof.
  intros Hwf. rewrite await_response_run.
  assert (Hno : has_entry (length (heap c)) (_pending_requests c) = false)
    by (apply has_entry_well_formed; [exact Hwf|lia]).
  rewrite Hno, (without_none _ _ Hno). destruct c; reflexivity.
Qed.



(** The one way the second half of [request] runs. *)
Example second_half_of_request :
  await_response (OStandard node_info) 1 None empty_communicator
  = Run [PendingAdd 0; PendingRemove 0] (with_heap [FPending] empty_communicator)
        (Raised TypeError).
Proof. vm_compute. reflexivity. Qed.

(** The whole call: the message is sent, and the call raises. *)
Example whole_request :
  request (OStandard node_info) 1 None empty_communicator
  = Run [SendStandard (OStandard node_info)] empty_communicator (Raised TypeError).
Proof. vm_compute. reflexivity. Qed.

(** A response that comes afterwards finds no entry and goes to the queue;
    the future of the request stays pending. *)
Example response_after_request_is_queued :
  final (run_events [EvItem (OStandard node_info)]
           (final (await_response (OStandard node_info) 1 None empty_communicator)))
  = {| _codec := None; _pending_requests := [];
       _message_queue := [OStandard node_info]; heap := [FPending] |}.
Proof. vm_compute. reflexivity. Qed.

(** C5: no call of [request] returns [None], whatever arrives or does not
    arrive: the call raises, at the test of the timeout or at the send; and
    the second half of [request], taken on its own, raises [TypeError] at the
    call of
    [asyncio.wait_for], before any waiting, so that there is no timeout to
    return [None] for, and it leaves the future pending, not cancelled.  (The
    entry is removed all the same, see C3.) *)
Theorem request_raises_where_none_is_promised (message_or_type : pyobj) (timeout : Z)
    (predicate : option predicate_fn) (c : Communicator) :
  (exists e, out (request message_or_type timeout predicate c) = Raised e)
  /\ out (request message_or_type timeout predicate c) <> Returned None
  /\ out (await_response message_or_type timeout predicate c) = Raised TypeError
  /\ heap (final (await_response message_or_type timeout predicate c)) !! length (heap c)
     = Some FPending.
Proof.
  destruct (request_run message_or_type timeout predicate c) as (_ & _ & He).
  split; [exact He|]. split; [destruct He as [e He]; rewrite He; discriminate|].
  rewrite await_response_run. cbn [out final heap with_pending with_heap].
  split; [reflexivity|]. apply list_lookup_middle. reflexivity.
Qed.

(** X13: the second half of [request] leaves the pending set as it found
    it.  From a state whose entries hold futures of the heap it adds its
    entry, removes it again and raises [TypeError] (the removal does not
    fail with [KeyError]); codec, pending set and message queue are as
    before, and the heap has one more future, which is pending. *)
Theorem request_leaves_pending_set_as_found (message_or_type : pyobj) (timeout : Z)
    (predicate : option predicate_fn) (c : Communicator) :
  well_formed c ->
  await_response message_or_type timeout predicate c
  = Run [PendingAdd (length (heap c)); PendingRemove (length (heap c))]
        (with_heap (heap c ++ [FPending]) c) (Raised TypeError).
Proof. apply await_response_well_formed. Qed.

Lemma request_leaves_pending_set_as_found_witness :
  await_response (OMessage general_status) 1 (Some faulty) two_waiting
  = Run [PendingAdd 2; PendingRemove 2]
        (with_heap ([FPending; FPending] ++ [FPending]) two_waiting) (Raised TypeError).
Proof.
  apply (request_leaves_pending_set_as_found (OMessage general_status) 1 (Some faulty)
           two_waiting).
  unfold well_formed. simpl. repeat constructor.
Defined.
